(** * The network store and the connection-edge renderer

    A shallow embedding of the two revisions of the zustand store
    ([client/src/lib/store.ts] and the later revision that adds
    [deleteElement]) and of the [ConnectionEdge] component.

    Conventions of the embedding.
    - JavaScript numbers are exact: integers are [Z], other literals are [Q].
      This is the behaviour of the code for the safe integers (magnitude up
      to [MAX_SAFE_INTEGER] = 2^53 - 1); beyond them the code rounds to
      doubles and prints in other forms, and the model does not.  The
      properties that depend on it say so in a hypothesis.
    - Strings are sequences of code units below 256.
    - Open objects (the [data] bags, CSS style objects) are finite maps from
      property names to values; object spread is map union.
    - Arrays have an identity ([arr_ref]): every array literal, [map],
      [filter] and spread builds a new array, as in JavaScript.
    - The functions imported from [@xyflow/react] are parameters, collected
      in the class [Xyflow]. *)

From Stdlib Require Import Ascii String ZArith QArith DecimalString DecimalPos.
From stdpp Require Import base strings list gmap.

Local Open Scope string_scope.
Local Open Scope Z_scope.

(** ** JavaScript values and built-ins *)

Inductive JSVal : Type :=
| VUndef
| VNaN
| VNum (q : Q)
| VStr (s : string).

(** [v === "lit"] where [v] is the result of a property read
    ([None]: the property is absent, which reads as [undefined]). *)
Definition is_string (v : option JSVal) (lit : string) : bool :=
  match v with
  | Some (VStr s) => bool_decide (s = lit)
  | _ => false
  end.

(** ToBoolean on the result of a property read. *)
Definition truthy (v : option JSVal) : bool :=
  match v with
  | None | Some VUndef | Some VNaN => false
  | Some (VNum q) => negb (Qeq_bool q 0)
  | Some (VStr s) => negb (bool_decide (s = ""))
  end.

(** [{ ...a, ...b }]: the properties of [b] win. *)
Definition spread (a b : gmap string JSVal) : gmap string JSVal := b ∪ a.

(** [{ ...a }] for an [a] that may be [undefined]. *)
Definition spread_opt (a : option (gmap string JSVal)) : gmap string JSVal :=
  default ∅ a.

(** StrWhiteSpaceChar, for code units below 256:
    TAB, LF, VT, FF, CR, SP and NBSP. *)
Definition isWhiteSpace (c : ascii) : bool :=
  let n := N_of_ascii c in
  (n =? 9)%N || (n =? 10)%N || (n =? 11)%N || (n =? 12)%N || (n =? 13)%N
  || (n =? 32)%N || (n =? 160)%N.

Fixpoint trimStart (s : string) : string :=
  match s with
  | String c r => if isWhiteSpace c then trimStart r else s
  | EmptyString => s
  end.

(** The value of a digit in radixes up to 36. *)
Definition digitValue (c : ascii) : option Z :=
  let n := Z.of_N (N_of_ascii c) in
  if (48 <=? n) && (n <=? 57) then Some (n - 48)
  else if (97 <=? n) && (n <=? 122) then Some (n - 97 + 10)
  else if (65 <=? n) && (n <=? 90) then Some (n - 65 + 10)
  else None.

(** The longest prefix of radix-[R] digits, as an integer; [acc] is [None]
    until a digit has been read. *)
Fixpoint parseDigits (R : Z) (s : string) (acc : option Z) : option Z :=
  match s with
  | EmptyString => acc
  | String c r =>
      match digitValue c with
      | Some d =>
          if d <? R
          then parseDigits R r (Some (default 0 acc * R + d))
          else acc
      | None => acc
      end
  end.

(** [parseInt(s)] with no radix argument; [None] is NaN.  Leading white
    space, an optional sign, an optional [0x]/[0X] prefix, then digits; what
    follows the digits is ignored.  The integer is exact; the built-in
    gives the same number up to 2^53 and the nearest double beyond. *)
Definition parseInt (s : string) : option Z :=
  let s := trimStart s in
  let '(sign, s) :=
    match s with
    | String "-" r => (-1, r)
    | String "+" r => (1, r)
    | _ => (1, s)
    end in
  let '(R, s) :=
    match s with
    | String "0" (String "x" r) => (16, r)
    | String "0" (String "X" r) => (16, r)
    | _ => (10, s)
    end in
  Z.mul sign <$> parseDigits R s None.

(** [parseInt(s) || 0]: NaN and 0 are falsy. *)
Definition orZero (r : option Z) : Z :=
  match r with
  | Some z => if bool_decide (z = 0) then 0 else z
  | None => 0
  end.

(** The number [parseInt] returned, as a value. *)
Definition number_of_parsed (r : option Z) : JSVal :=
  match r with
  | Some z => VNum (inject_Z z)
  | None => VNaN
  end.

(** [Number.MAX_SAFE_INTEGER] *)
Definition MAX_SAFE_INTEGER : Z := 2 ^ 53 - 1.

(** Number-to-string conversion of an integer (template literals): the
    decimal numeral, which is what the code prints up to 2^53. *)
Definition toString (z : Z) : string := NilZero.string_of_int (Z.to_int z).

Definition toString_parsed (r : option Z) : string :=
  match r with
  | Some z => toString z
  | None => "NaN"
  end.

(** [Math.max(...args, last)]: the call sites always pass a last argument. *)
Definition Math_max (args : list Z) (last : Z) : Z := foldr Z.max last args.

(** ** Arrays with identity *)

Record Arr (A : Type) : Type := mkArr { arr_ref : nat; arr_items : list A }.
Arguments mkArr {A} _ _.
Arguments arr_ref {A} _.
Arguments arr_items {A} _.

(** Computations that may build arrays: the state is the next unused
    array identity. *)
Definition Alloc (A : Type) : Type := nat → A * nat.

Definition same {A} (a : A) : Alloc A := λ h, (a, h).

Definition new_array {A} (items : list A) : Alloc (Arr A) :=
  λ h, (mkArr h items, S h).

Definition Array_map {A B} (f : A → B) (a : Arr A) : Alloc (Arr B) :=
  new_array (f <$> arr_items a).

Definition Array_filter {A} (p : A → bool) (a : Arr A) : Alloc (Arr A) :=
  new_array (List.filter p (arr_items a)).

(** [[...a, x]] *)
Definition Array_snoc {A} (a : Arr A) (x : A) : Alloc (Arr A) :=
  new_array (arr_items a ++ [x]).

(** ** The data model *)

Record XYPosition : Type := { pos_x : Q; pos_y : Q }.

Inductive MarkerType : Type := Arrow | ArrowClosed.

Record EdgeMarker : Type :=
  { marker_type : MarkerType; marker_color : option string }.

(** [EdgeMarkerType = string | EdgeMarker] *)
Inductive EdgeMarkerType : Type :=
| MarkerRef (s : string)
| MarkerSpec (m : EdgeMarker).

(** [WhamoNode = Node<NodeData>].  [NodeType] comes from [@shared/schema];
    at run time it is a string. *)
Record Node : Type :=
  { node_id : string;
    node_type : string;
    node_position : XYPosition;
    node_data : gmap string JSVal }.

(** [WhamoEdge = Edge<EdgeData>]; [data], [style], [type] and [markerEnd]
    are optional in the library's [Edge]. *)
Record Edge : Type :=
  { edge_id : string;
    edge_source : string;
    edge_target : string;
    edge_sourceHandle : option string;
    edge_targetHandle : option string;
    edge_type : option string;
    edge_style : option (gmap string JSVal);
    edge_markerEnd : option EdgeMarkerType;
    edge_data : option (gmap string JSVal) }.

Record Connection : Type :=
  { source : string;
    target : string;
    sourceHandle : option string;
    targetHandle : option string }.

(** ['node' | 'edge'] *)
Inductive ElementType : Type := kind_node | kind_edge.

Global Instance ElementType_eq_dec : EqDecision ElementType.
Proof. solve_decision. Defined.

Record NetworkState : Type :=
  { nodes : Arr Node;
    edges : Arr Edge;
    selectedElementId : option string;
    selectedElementType : option ElementType }.

(** The store, the module-level [idCounter] and the next array identity. *)
Record World : Type :=
  { store : NetworkState;
    idCounter : Z;
    heap : nat }.

(** ** The state monad of the actions *)

Definition St (A : Type) : Type := World → A * World.

Definition ret {A} (a : A) : St A := λ w, (a, w).

Definition bind {A B} (c : St A) (k : A → St B) : St B :=
  λ w, let '(a, w') := c w in k a w'.

Declare Scope store_scope.
Delimit Scope store_scope with store.
Notation "'let*' x ':=' c 'in' k" := (bind c (λ x, k))
  (at level 10, x name, c at level 100, k at level 200) : store_scope.
Local Open Scope store_scope.

(** The world after an action. *)
Definition exec {A} (c : St A) (w : World) : World := snd (c w).

Definition alloc {A} (c : Alloc A) : St A :=
  λ w, let '(a, h) := c (heap w) in
       (a, {| store := store w; idCounter := idCounter w; heap := h |}).

(** zustand's [get()] *)
Definition get : St NetworkState := λ w, (store w, w).

(** One property of the object handed to zustand's [set]. *)
Inductive Assign : Type :=
| nodes_is (a : Arr Node)
| edges_is (a : Arr Edge)
| selectedElementId_is (v : option string)
| selectedElementType_is (v : option ElementType).

Definition assign1 (s : NetworkState) (p : Assign) : NetworkState :=
  match p with
  | nodes_is a =>
      {| nodes := a; edges := edges s;
         selectedElementId := selectedElementId s;
         selectedElementType := selectedElementType s |}
  | edges_is a =>
      {| nodes := nodes s; edges := a;
         selectedElementId := selectedElementId s;
         selectedElementType := selectedElementType s |}
  | selectedElementId_is v =>
      {| nodes := nodes s; edges := edges s;
         selectedElementId := v;
         selectedElementType := selectedElementType s |}
  | selectedElementType_is v =>
      {| nodes := nodes s; edges := edges s;
         selectedElementId := selectedElementId s;
         selectedElementType := v |}
  end.

(** zustand's [set(partial)]: the listed properties replace the current
    ones, the others stay. *)
Definition set (partial : list Assign) : St unit :=
  λ w, (tt, {| store := foldl assign1 (store w) partial;
               idCounter := idCounter w; heap := heap w |}).

Definition put_idCounter (z : Z) : St unit :=
  λ w, (tt, {| store := store w; idCounter := z; heap := heap w |}).

(** [const getId = () => `${idCounter++}`]; exact, as the code is while the
    counter is a safe integer. *)
Definition getId : St string :=
  λ w, (toString (idCounter w),
        {| store := store w; idCounter := idCounter w + 1; heap := heap w |}).

(** [state.selectedElementId === id] *)
Definition selected_is (sel : option string) (id : string) : bool :=
  match sel with
  | Some s => bool_decide (s = id)
  | None => false
  end.

(** ** The host diagramming library

    [applyNodeChanges], [applyEdgeChanges], [addEdge] and [getBezierPath]
    are imported from [@xyflow/react].  They take and return arrays and
    strings and have no access to the store. *)

Inductive Position : Type := Left | Top | Right | Bottom.

Class Xyflow : Type :=
  { NodeChange : Type;
    EdgeChange : Type;
    applyNodeChanges : list NodeChange → Arr Node → Alloc (Arr Node);
    applyEdgeChanges : list EdgeChange → Arr Edge → Alloc (Arr Edge);
    addEdge : Edge → Arr Edge → Alloc (Arr Edge);
    (** the first component of the tuple [getBezierPath] returns *)
    getBezierPath : Q → Q → Position → Q → Q → Position → string }.

(** Modelled from the spec: the body of the library's [addEdge], which is
    not part of the sources.  The spec says that [connect] appends the new
    edge to the edge collection, with no check that the source differs from
    the target or that the connection does not exist already. *)
Definition addEdge_spec (e : Edge) (es : Arr Edge) : Alloc (Arr Edge) :=
  new_array (arr_items es ++ [e]).

(** [!handle], for a handle that may be null. *)
Definition falsy_handle (h : option string) : bool :=
  match h with
  | Some s => bool_decide (s = "")
  | None => true
  end.

(** [a === b || (!a && !b)] *)
Definition same_handle (a b : option string) : bool :=
  bool_decide (a = b) || (falsy_handle a && falsy_handle b).

(** The library's [connectionExists], on the four properties of the new
    edge that it reads. *)
Definition connectionExists (src tgt : string) (sh th : option string)
    (es : list Edge) : bool :=
  existsb (λ el, bool_decide (edge_source el = src)
                 && bool_decide (edge_target el = tgt)
                 && same_handle (edge_sourceHandle el) sh
                 && same_handle (edge_targetHandle el) th)
          es.

(** The [addEdge] of [@xyflow/react] as the library has it; it is not part
    of the sources.  It returns the array it was given when the new edge
    has an empty source or target or when [connectionExists] finds an edge
    with the same source, target and handles, and [edges.concat(edge)]
    otherwise. *)
Definition library_addEdge (e : Edge) (es : Arr Edge) : Alloc (Arr Edge) :=
  if bool_decide (edge_source e = "") || bool_decide (edge_target e = "")
  then same es
  else if connectionExists (edge_source e) (edge_target e)
            (edge_sourceHandle e) (edge_targetHandle e) (arr_items es)
  then same es
  else new_array (arr_items es ++ [e]).

(** A host library whose [addEdge] is the library's. *)
Definition addEdge_as_library (H : Xyflow) : Prop :=
  ∀ e es h, addEdge e es h = library_addEdge e es h.

(** Whatever [addEdge] decides, it appends the edge or keeps the elements:
    true of the spec's reading and of the library's. *)
Definition addEdge_adds_at_most (H : Xyflow) : Prop :=
  ∀ e es h,
    arr_items (addEdge e es h).1 = (arr_items es ++ [e])%list
    ∨ arr_items (addEdge e es h).1 = arr_items es.

(** What the spec says of [addEdge], as a property of a host library. *)
Definition addEdge_appends (H : Xyflow) : Prop :=
  ∀ e es h, arr_items (addEdge e es h).1 = (arr_items es ++ [e])%list.

(** A host library for concrete runs: [addEdge] as the spec has it, change
    records that name the ids to remove, a constant path. *)
Definition spec_host : Xyflow :=
  {| NodeChange := string;
     EdgeChange := string;
     applyNodeChanges := λ changes ns,
       new_array
         (List.filter (λ n, negb (bool_decide (node_id n ∈ changes)))
                      (arr_items ns));
     applyEdgeChanges := λ changes es,
       new_array
         (List.filter (λ e, negb (bool_decide (edge_id e ∈ changes)))
                      (arr_items es));
     addEdge := addEdge_spec;
     getBezierPath := λ _ _ _ _ _ _, "M0,0" |}.

(** The same with the library's [addEdge]. *)
Definition library_host : Xyflow :=
  {| NodeChange := string;
     EdgeChange := string;
     applyNodeChanges := applyNodeChanges (Xyflow := spec_host);
     applyEdgeChanges := applyEdgeChanges (Xyflow := spec_host);
     addEdge := library_addEdge;
     getBezierPath := λ _ _ _ _ _ _, "M0,0" |}.

(** ** Actions that read the same in both revisions of the store *)

Section Actions.
Context {host : Xyflow}.

Definition onNodesChange (changes : list NodeChange) : St unit :=
  let* s := get in
  let* ns := alloc (applyNodeChanges changes (nodes s)) in
  set [nodes_is ns].

Definition onEdgesChange (changes : list EdgeChange) : St unit :=
  let* s := get in
  let* es := alloc (applyEdgeChanges changes (edges s)) in
  set [edges_is es].

(** The [switch] of [addNode]: the data of the new node.  The array
    [nodeTypesWithNumbers] is built and never read. *)
Definition initialData_for (type id : string) : gmap string JSVal :=
  let initialData : gmap string JSVal :=
    {[ "label" := VStr ""; "type" := VStr type ]} in
  let nodeNumber := parseInt id in
  let num := number_of_parsed nodeNumber in
  if bool_decide (type = "reservoir") then
    spread initialData
      {[ "label" := VStr "HW"; "nodeNumber" := num;
         "elevation" := VNum 100 ]}
  else if bool_decide (type = "node") then
    spread initialData
      {[ "label" := VStr ("Node " +:+ toString_parsed nodeNumber);
         "nodeNumber" := num; "elevation" := VNum 50 ]}
  else if bool_decide (type = "junction") then
    spread initialData
      {[ "label" := VStr ("Node " +:+ toString_parsed nodeNumber);
         "nodeNumber" := num; "elevation" := VNum 50 ]}
  else if bool_decide (type = "surgeTank") then
    spread initialData
      {[ "label" := VStr "ST"; "nodeNumber" := num;
         "topElevation" := VNum 120; "bottomElevation" := VNum 80;
         "diameter" := VNum 5; "celerity" := VNum 1000;
         "friction" := VNum 0.01 ]}
  else if bool_decide (type = "flowBoundary") then
    spread initialData
      {[ "label" := VStr ("FB" +:+ id); "nodeNumber" := num;
         "scheduleNumber" := VNum 1 ]}
  else initialData.

Definition addNode (type : string) (position : XYPosition) : St unit :=
  let* id := getId in
  let newNode :=
    {| node_id := id; node_type := type; node_position := position;
       node_data := initialData_for type id |} in
  let* s := get in
  let* ns := alloc (Array_snoc (nodes s) newNode) in
  set [nodes_is ns].

Definition updateNodeData (id : string) (data : gmap string JSVal)
  : St unit :=
  let* s := get in
  let* ns :=
    alloc (Array_map
             (λ n, if bool_decide (node_id n = id)
                   then {| node_id := node_id n; node_type := node_type n;
                           node_position := node_position n;
                           node_data := spread (node_data n) data |}
                   else n)
             (nodes s)) in
  set [nodes_is ns].

Definition selectElement (id : option string) (type : option ElementType)
  : St unit :=
  set [selectedElementId_is id; selectedElementType_is type].

(** [maxId + 1] is exact, as the code's is while no id reads as more than
    [MAX_SAFE_INTEGER]. *)
Definition loadNetwork (ns : Arr Node) (es : Arr Edge) : St unit :=
  let maxId :=
    Math_max (((λ n, orZero (parseInt (node_id n))) <$> arr_items ns)
              ++ ((λ e, orZero (parseInt (edge_id e))) <$> arr_items es))
             0 in
  let* _ := put_idCounter (maxId + 1) in
  set [nodes_is ns; edges_is es;
       selectedElementId_is None; selectedElementType_is None].

Definition clearNetwork : St unit :=
  let* ns := alloc (new_array []) in
  let* es := alloc (new_array []) in
  let* _ := set [nodes_is ns; edges_is es;
                 selectedElementId_is None; selectedElementType_is None] in
  put_idCounter 1.

End Actions.

(** The store as [create] builds it, with the module-level counter. *)
Definition initial : World :=
  {| store := {| nodes := mkArr 0%nat []; edges := mkArr 1%nat [];
                 selectedElementId := None; selectedElementType := None |};
     idCounter := 1;
     heap := 2 |}.

(** The presentation defaults of [updateEdgeData]. *)
Definition conduit_style : gmap string JSVal :=
  {[ "stroke" := VStr "#3b82f6"; "strokeWidth" := VNum 2 ]}.

Definition conduit_marker : EdgeMarkerType :=
  MarkerSpec {| marker_type := ArrowClosed; marker_color := Some "#3b82f6" |}.

Definition dummy_style : gmap string JSVal :=
  {[ "stroke" := VStr "#94a3b8"; "strokeWidth" := VNum 2;
     "strokeDasharray" := VStr "5,5" ]}.

Definition dummy_marker : EdgeMarkerType :=
  MarkerSpec {| marker_type := ArrowClosed; marker_color := Some "#94a3b8" |}.

(** ** [client/src/lib/store.ts] *)

Module Store.
Section Store.
Context {host : Xyflow}.

Definition onConnect (connection : Connection) : St unit :=
  let* id := getId in
  let* s := get in
  let* es :=
    alloc (addEdge
             {| edge_id := id;
                edge_source := source connection;
                edge_target := target connection;
                edge_sourceHandle := sourceHandle connection;
                edge_targetHandle := targetHandle connection;
                edge_type := Some "conduit";
                edge_style :=
                  Some {[ "stroke" := VStr "#3b82f6";
                          "strokeWidth" := VNum 2 ]};
                edge_markerEnd :=
                  Some (MarkerSpec {| marker_type := ArrowClosed;
                                      marker_color := Some "#3b82f6" |});
                edge_data :=
                  Some {[ "label" := VStr ("C-" +:+ id);
                          "type" := VStr "conduit";
                          "length" := VNum 1000;
                          "diameter" := VNum 0.5;
                          "celerity" := VNum 1000;
                          "friction" := VNum 0.02;
                          "numSegments" := VNum 1 ]} |}
             (edges s)) in
  set [edges_is es].

(** The callback [updateEdgeData] maps over the edges. *)
Definition updateEdge (id : string) (data : gmap string JSVal) (e : Edge)
  : Edge :=
  if bool_decide (edge_id e = id) then
    let newData := spread (spread_opt (edge_data e)) data in
    let style := edge_style e in
    let markerEnd := edge_markerEnd e in
    let '(style, markerEnd) :=
      if is_string (data !! "type") "conduit" then
        (Some conduit_style, Some conduit_marker)
      else if is_string (data !! "type") "dummy" then
        (Some dummy_style, Some dummy_marker)
      else (style, markerEnd) in
    {| edge_id := edge_id e;
       edge_source := edge_source e;
       edge_target := edge_target e;
       edge_sourceHandle := edge_sourceHandle e;
       edge_targetHandle := edge_targetHandle e;
       edge_type := edge_type e;
       edge_style := style;
       edge_markerEnd := markerEnd;
       edge_data := Some newData |}
  else e.

Definition updateEdgeData (id : string) (data : gmap string JSVal)
  : St unit :=
  let* s := get in
  let* es := alloc (Array_map (updateEdge id data) (edges s)) in
  set [edges_is es].

Inductive Action : Type :=
| OnNodesChange (changes : list NodeChange)
| OnEdgesChange (changes : list EdgeChange)
| OnConnect (connection : Connection)
| AddNode (type : string) (position : XYPosition)
| UpdateNodeData (id : string) (data : gmap string JSVal)
| UpdateEdgeData (id : string) (data : gmap string JSVal)
| SelectElement (id : option string) (type : option ElementType)
| LoadNetwork (ns : Arr Node) (es : Arr Edge)
| ClearNetwork.

Definition dispatch (a : Action) : St unit :=
  match a with
  | OnNodesChange changes => onNodesChange changes
  | OnEdgesChange changes => onEdgesChange changes
  | OnConnect connection => onConnect connection
  | AddNode type position => addNode type position
  | UpdateNodeData id data => updateNodeData id data
  | UpdateEdgeData id data => updateEdgeData id data
  | SelectElement id type => selectElement id type
  | LoadNetwork ns es => loadNetwork ns es
  | ClearNetwork => clearNetwork
  end.

(** [selectElement] is called with both arguments null or neither. *)
Definition paired (a : Action) : Prop :=
  match a with
  | SelectElement id type => id = None ↔ type = None
  | _ => True
  end.

End Store.
End Store.

(** ** The revision of the store with [deleteElement] *)

Module Part000.
Section Store.
Context {host : Xyflow}.

Definition onConnect (connection : Connection) : St unit :=
  let* id := getId in
  let* s := get in
  let* conduits :=
    alloc (Array_filter
             (λ e, is_string (edge_data e ≫= (.!! "type")) "conduit")
             (edges s)) in
  let conduitCount := Z.of_nat (length (arr_items conduits)) in
  let connectionLabel := "C" +:+ toString (conduitCount + 1) in
  let* s := get in
  let* es :=
    alloc (addEdge
             {| edge_id := id;
                edge_source := source connection;
                edge_target := target connection;
                edge_sourceHandle := sourceHandle connection;
                edge_targetHandle := targetHandle connection;
                edge_type := Some "connection";
                edge_style :=
                  Some {[ "stroke" := VStr "#64748b";
                          "strokeWidth" := VNum 2 ]};
                edge_markerEnd :=
                  Some (MarkerSpec {| marker_type := ArrowClosed;
                                      marker_color := Some "#64748b" |});
                edge_data :=
                  Some {[ "label" := VStr connectionLabel;
                          "type" := VStr "conduit";
                          "length" := VNum 1000;
                          "diameter" := VNum 0.5;
                          "celerity" := VNum 1000;
                          "friction" := VNum 0.02;
                          "numSegments" := VNum 1 ]} |}
             (edges s)) in
  set [edges_is es].

(** The body is a comment and nothing else. *)
Definition updateEdgeData (id : string) (data : gmap string JSVal)
  : St unit :=
  ret tt.

Definition deleteElement (id : string) (type : ElementType) : St unit :=
  let* state := get in
  match type with
  | kind_node =>
      let* remainingNodes :=
        alloc (Array_filter (λ n, negb (bool_decide (node_id n = id)))
                            (nodes state)) in
      let* remainingEdges :=
        alloc (Array_filter
                 (λ e, negb (bool_decide (edge_source e = id))
                       && negb (bool_decide (edge_target e = id)))
                 (edges state)) in
      set [nodes_is remainingNodes;
           edges_is remainingEdges;
           selectedElementId_is
             (if selected_is (selectedElementId state) id
              then None else selectedElementId state);
           selectedElementType_is
             (if selected_is (selectedElementId state) id
              then None else selectedElementType state)]
  | kind_edge =>
      let* remaining :=
        alloc (Array_filter (λ e, negb (bool_decide (edge_id e = id)))
                            (edges state)) in
      set [edges_is remaining;
           selectedElementId_is
             (if selected_is (selectedElementId state) id
              then None else selectedElementId state);
           selectedElementType_is
             (if selected_is (selectedElementId state) id
              then None else selectedElementType state)]
  end.

Inductive Action : Type :=
| OnNodesChange (changes : list NodeChange)
| OnEdgesChange (changes : list EdgeChange)
| OnConnect (connection : Connection)
| AddNode (type : string) (position : XYPosition)
| UpdateNodeData (id : string) (data : gmap string JSVal)
| UpdateEdgeData (id : string) (data : gmap string JSVal)
| DeleteElement (id : string) (type : ElementType)
| SelectElement (id : option string) (type : option ElementType)
| LoadNetwork (ns : Arr Node) (es : Arr Edge)
| ClearNetwork.

Definition dispatch (a : Action) : St unit :=
  match a with
  | OnNodesChange changes => onNodesChange changes
  | OnEdgesChange changes => onEdgesChange changes
  | OnConnect connection => onConnect connection
  | AddNode type position => addNode type position
  | UpdateNodeData id data => updateNodeData id data
  | UpdateEdgeData id data => updateEdgeData id data
  | DeleteElement id type => deleteElement id type
  | SelectElement id type => selectElement id type
  | LoadNetwork ns es => loadNetwork ns es
  | ClearNetwork => clearNetwork
  end.

(** [selectElement] is called with both arguments null or neither. *)
Definition paired (a : Action) : Prop :=
  match a with
  | SelectElement id type => id = None ↔ type = None
  | _ => True
  end.

End Store.
End Part000.

(** The worlds a store reaches from [initial] through actions that
    satisfy [allowed]. *)
Inductive reachable {Act : Type} (allowed : Act → Prop)
    (dispatch : Act → St unit) : World → Prop :=
| reachable_initial : reachable allowed dispatch initial
| reachable_step a w :
    reachable allowed dispatch w →
    allowed a →
    reachable allowed dispatch (exec (dispatch a) w).

Definition any {Act : Type} (a : Act) : Prop := True.

(** ** The connection-edge renderer *)

Record EdgeProps : Type :=
  { props_id : string;
    sourceX : Q;
    sourceY : Q;
    targetX : Q;
    targetY : Q;
    sourcePosition : Position;
    targetPosition : Position;
    props_style : option (gmap string JSVal);
    props_markerEnd : option string }.

(** The [<marker>] element and the [<path>] inside it. *)
Record MarkerElement : Type :=
  { marker_id : string;
    markerWidth : string;
    markerHeight : string;
    refX : string;
    refY : string;
    orient : string;
    markerUnits : string;
    path_d : string;
    path_fill : JSVal }.

(** The props handed to the library's [BaseEdge]. *)
Record BaseEdgeProps : Type :=
  { base_path : string;
    base_markerEnd : string;
    base_style : gmap string JSVal }.

Record Rendered : Type :=
  { defs_marker : MarkerElement;
    base_edge : BaseEdgeProps }.

(** [style.stroke || '#3b82f6'] *)
Definition stroke_or_default (style : gmap string JSVal) : JSVal :=
  if truthy (style !! "stroke")
  then default VUndef (style !! "stroke")
  else VStr "#3b82f6".

(** The component computes [angle] from the end points with [Math.atan2]
    and does not use it; it is left out. *)
Definition ConnectionEdge {host : Xyflow} (props : EdgeProps) : Rendered :=
  let style := default ∅ (props_style props) in
  let edgePath :=
    getBezierPath (sourceX props) (sourceY props) (sourcePosition props)
                  (targetX props) (targetY props) (targetPosition props) in
  {| defs_marker :=
       {| marker_id := "arrow-" +:+ props_id props;
          markerWidth := "6";
          markerHeight := "6";
          refX := "5";
          refY := "3";
          orient := "auto-start-reverse";
          markerUnits := "strokeWidth";
          path_d := "M0,0 L6,3 L0,6 z";
          path_fill := stroke_or_default style |};
     base_edge :=
       {| base_path := edgePath;
          base_markerEnd := "url(#arrow-" +:+ props_id props +:+ ")";
          base_style := spread style {[ "strokeWidth" := VNum 2 ]} |} |}.

(** ** Vocabulary of the statements *)

Definition node_list (w : World) : list Node := arr_items (nodes (store w)).
Definition edge_list (w : World) : list Edge := arr_items (edges (store w)).

(** [retained keep l l']: [l'] is [l] with the elements that fail [keep]
    taken out and the others left where they are. *)
Inductive retained {A : Type} (keep : A → Prop) : list A → list A → Prop :=
| retained_nil : retained keep [] []
| retained_keep x l l' :
    keep x → retained keep l l' → retained keep (x :: l) (x :: l')
| retained_drop x l l' :
    ¬ keep x → retained keep l l' → retained keep (x :: l) l'.

(** An id read the way the spec puts it: the number [parseInt] finds, and 0
    for an id that is not numeric. *)
Definition id_value (id : string) : Z := default 0 (parseInt id).

Definition loaded_ids (ns : Arr Node) (es : Arr Edge) : list Z :=
  ((id_value ∘ node_id) <$> arr_items ns)
  ++ ((id_value ∘ edge_id) <$> arr_items es).

Definition is_max (m : Z) (l : list Z) : Prop := m ∈ l ∧ ∀ z, z ∈ l → z ≤ m.

(** The engineering attributes a new connection carries. *)
Definition default_attributes (d : gmap string JSVal) : Prop :=
  d !! "length" = Some (VNum 1000)
  ∧ d !! "diameter" = Some (VNum 0.5)
  ∧ d !! "celerity" = Some (VNum 1000)
  ∧ d !! "friction" = Some (VNum 0.02)
  ∧ d !! "numSegments" = Some (VNum 1).

(** [w'] is [w] with one more edge, from [source c] to [target c], with
    the default attributes. *)
Definition connected (c : Connection) (w w' : World) : Prop :=
  ∃ e d,
    edge_list w' = (edge_list w ++ [e])%list
    ∧ length (edge_list w') = S (length (edge_list w))
    ∧ edge_source e = source c
    ∧ edge_target e = target c
    ∧ edge_data e = Some d
    ∧ default_attributes d.

Definition selection (w : World) : option string * option ElementType :=
  (selectedElementId (store w), selectedElementType (store w)).

(** Sample data for the concrete runs. *)
Definition origin : XYPosition := {| pos_x := 0; pos_y := 0 |}.

Definition sample_node (id : string) : Node :=
  {| node_id := id; node_type := "junction"; node_position := origin;
     node_data := {[ "label" := VStr "J"; "type" := VStr "junction" ]} |}.

Definition sample_edge (id a b : string) : Edge :=
  {| edge_id := id; edge_source := a; edge_target := b;
     edge_sourceHandle := None; edge_targetHandle := None;
     edge_type := Some "conduit"; edge_style := None;
     edge_markerEnd := None;
     edge_data := Some {[ "label" := VStr "C"; "type" := VStr "conduit" ]} |}.

(** A caller builds the two arrays and hands them to [loadNetwork]. *)
Definition load (ns : list Node) (es : list Edge) : St unit :=
  let* na := alloc (new_array ns) in
  let* ea := alloc (new_array es) in
  loadNetwork na ea.

(** Three nodes and three edges; "e2" does not touch node "2". *)
Definition sample_world : World :=
  exec (load [sample_node "1"; sample_node "2"; sample_node "3"]
             [sample_edge "e1" "1" "2"; sample_edge "e2" "3" "1";
              sample_edge "e3" "2" "3"])
       initial.

(** Both selection fields are null or neither is. *)
Definition selection_paired (w : World) : Prop :=
  selectedElementId (store w) = None ↔ selectedElementType (store w) = None.

(** Edge "e3" (from "2" to "3") is selected, node "2" is deleted. *)
Definition world_e3_selected : World :=
  exec (selectElement (Some "e3") (Some kind_edge)) sample_world.

(** Node "1" is selected. *)
Definition world_node1_selected : World :=
  exec (selectElement (Some "1") (Some kind_node)) sample_world.

(** A node and an edge that share the id "3"; the node is selected. *)
Definition world_shared_id : World :=
  exec (let* _ := load [sample_node "3"; sample_node "4"]
                        [sample_edge "3" "4" "4"] in
        selectElement (Some "3") (Some kind_node))
       initial.

(** Node "1" is added, selected and deleted. *)
Definition add_select_delete : World :=
  exec (Part000.dispatch (host := spec_host)
          (Part000.DeleteElement "1" kind_node))
    (exec (Part000.dispatch (host := spec_host)
             (Part000.SelectElement (Some "1") (Some kind_node)))
       (exec (Part000.dispatch (host := spec_host)
                (Part000.AddNode "reservoir" origin))
          initial)).

(** An edge from "1" to "1", and one more from "1" to "2". *)
Definition loop_1_1 : Connection :=
  {| source := "1"; target := "1";
     sourceHandle := None; targetHandle := None |}.

Definition again_1_2 : Connection :=
  {| source := "1"; target := "2";
     sourceHandle := None; targetHandle := None |}.


(** Vocabulary of the further properties. *)

(** The integer a decimal numeral denotes, read from the left, after the
    digits already read ([acc]). *)
Fixpoint digits_value (d : Decimal.uint) (acc : Z) : Z :=
  match d with
  | Decimal.Nil => acc
  | Decimal.D0 l => digits_value l (10 * acc)
  | Decimal.D1 l => digits_value l (10 * acc + 1)
  | Decimal.D2 l => digits_value l (10 * acc + 2)
  | Decimal.D3 l => digits_value l (10 * acc + 3)
  | Decimal.D4 l => digits_value l (10 * acc + 4)
  | Decimal.D5 l => digits_value l (10 * acc + 5)
  | Decimal.D6 l => digits_value l (10 * acc + 6)
  | Decimal.D7 l => digits_value l (10 * acc + 7)
  | Decimal.D8 l => digits_value l (10 * acc + 8)
  | Decimal.D9 l => digits_value l (10 * acc + 9)
  end.

(** The data of the node [addNode] puts at the end of the collection. *)
Definition new_node_data (w : World) (type : string) (position : XYPosition)
  : option (gmap string JSVal) :=
  node_data <$> last (node_list (exec (addNode type position) w)).

(** The ids in use, nodes first. *)
Definition ids (w : World) : list string :=
  (node_id <$> node_list w) ++ (edge_id <$> edge_list w).

(** No id is used twice, and every id reads as a number below the
    counter. *)
Definition ids_fresh (w : World) : Prop :=
  NoDup (ids w) ∧ ∀ id, id ∈ ids w → id_value id < idCounter w.

(** The states a store reaches from [initial] through actions that
    satisfy [allowed] in the state they are taken in. *)
Inductive reachable_when {Act : Type} (allowed : World → Act → Prop)
    (dispatch : Act → St unit) : World → Prop :=
| reachable_when_initial : reachable_when allowed dispatch initial
| reachable_when_step a w :
    reachable_when allowed dispatch w →
    allowed w a →
    reachable_when allowed dispatch (exec (dispatch a) w).

(** Actions through which ids come from the store's own counter, in the
    range where the counter is exact: not the library's change records;
    [addNode] and [onConnect] while the counter is a safe integer;
    [loadNetwork] with data in which no id occurs twice and no id reads as
    more than [MAX_SAFE_INTEGER]. *)
Definition Store_mints (host : Xyflow) (w : World) (a : Store.Action)
  : Prop :=
  match a with
  | Store.OnNodesChange _ | Store.OnEdgesChange _ => False
  | Store.OnConnect _ | Store.AddNode _ _ => idCounter w ≤ MAX_SAFE_INTEGER
  | Store.LoadNetwork ns es =>
      NoDup ((node_id <$> arr_items ns) ++ (edge_id <$> arr_items es))
      ∧ ∀ z, z ∈ loaded_ids ns es → z ≤ MAX_SAFE_INTEGER
  | _ => True
  end.

Definition Part000_mints (host : Xyflow) (w : World) (a : Part000.Action)
  : Prop :=
  match a with
  | Part000.OnNodesChange _ | Part000.OnEdgesChange _ => False
  | Part000.OnConnect _ | Part000.AddNode _ _ =>
      idCounter w ≤ MAX_SAFE_INTEGER
  | Part000.LoadNetwork ns es =>
      NoDup ((node_id <$> arr_items ns) ++ (edge_id <$> arr_items es))
      ∧ ∀ z, z ∈ loaded_ids ns es → z ≤ MAX_SAFE_INTEGER
  | _ => True
  end.

(** The arrays of the store have identities that were handed out. *)
Definition arrays_allocated (w : World) : Prop :=
  (arr_ref (nodes (store w)) < heap w)%nat
  ∧ (arr_ref (edges (store w)) < heap w)%nat.

(** A library function returns the array it was given or one it builds. *)
Definition allocates {A B : Type} (f : Arr A → Alloc (Arr B)) : Prop :=
  ∀ a h, (h ≤ (f a h).2)%nat
         ∧ (arr_ref (f a h).1 = arr_ref a
            ∨ (h ≤ arr_ref (f a h).1 < (f a h).2)%nat).

Definition host_allocates (host : Xyflow) : Prop :=
  (∀ changes, allocates (applyNodeChanges changes))
  ∧ (∀ changes, allocates (applyEdgeChanges changes))
  ∧ (∀ e, allocates (addEdge e)).

(** [loadNetwork] is given arrays that exist. *)
Definition Store_loads_allocated (host : Xyflow) (w : World)
    (a : Store.Action) : Prop :=
  match a with
  | Store.LoadNetwork ns es =>
      (arr_ref ns < heap w)%nat ∧ (arr_ref es < heap w)%nat
  | _ => True
  end.

Definition Part000_loads_allocated (host : Xyflow) (w : World)
    (a : Part000.Action) : Prop :=
  match a with
  | Part000.LoadNetwork ns es =>
      (arr_ref ns < heap w)%nat ∧ (arr_ref es < heap w)%nat
  | _ => True
  end.

(** The range in which the counter arithmetic of an action is exact. *)
Definition Store_counter_exact (host : Xyflow) (w : World) (a : Store.Action)
  : Prop :=
  match a with
  | Store.OnConnect _ | Store.AddNode _ _ => idCounter w ≤ MAX_SAFE_INTEGER
  | Store.LoadNetwork ns es =>
      ∀ z, z ∈ loaded_ids ns es → z ≤ MAX_SAFE_INTEGER
  | _ => True
  end.

Definition Part000_counter_exact (host : Xyflow) (w : World)
    (a : Part000.Action) : Prop :=
  match a with
  | Part000.OnConnect _ | Part000.AddNode _ _ =>
      idCounter w ≤ MAX_SAFE_INTEGER
  | Part000.LoadNetwork ns es =>
      ∀ z, z ∈ loaded_ids ns es → z ≤ MAX_SAFE_INTEGER
  | _ => True
  end.

(** [merged old patch new]: [new] has the properties of [patch], and those
    of [old] that [patch] does not have. *)
Definition merged (old patch new : gmap string JSVal) : Prop :=
  ∀ k, new !! k = match patch !! k with
                  | Some v => Some v
                  | None => old !! k
                  end.

(** Every edge starts and ends at a node of the collection. *)
Definition endpoints_present (w : World) : Prop :=
  ∀ e, e ∈ edge_list w →
       edge_source e ∈ node_id <$> node_list w
       ∧ edge_target e ∈ node_id <$> node_list w.

(** Actions that cannot bring in an edge without its nodes: not the
    library's change records, [onConnect] between nodes that are there,
    [loadNetwork] with edges between the loaded nodes. *)
Definition keeps_endpoints (host : Xyflow) (w : World) (a : Part000.Action)
  : Prop :=
  match a with
  | Part000.OnNodesChange _ | Part000.OnEdgesChange _ => False
  | Part000.OnConnect c =>
      source c ∈ node_id <$> node_list w
      ∧ target c ∈ node_id <$> node_list w
  | Part000.LoadNetwork ns es =>
      ∀ e, e ∈ arr_items es →
           edge_source e ∈ node_id <$> arr_items ns
           ∧ edge_target e ∈ node_id <$> arr_items ns
  | _ => True
  end.

(** Two nodes are added and connected twice, with the library's
    [addEdge]: the second connection repeats the first. *)
Definition two_nodes_connected_twice : World :=
  exec (Part000.dispatch (host := library_host)
          (Part000.OnConnect again_1_2))
    (exec (Part000.dispatch (host := library_host)
             (Part000.OnConnect again_1_2))
       (exec (Part000.dispatch (host := library_host)
                (Part000.AddNode "junction" origin))
          (exec (Part000.dispatch (host := library_host)
                   (Part000.AddNode "reservoir" origin))
             initial))).

(** Two nodes are added and connected. *)
Definition two_nodes_connected : World :=
  exec (Part000.dispatch (host := spec_host)
          (Part000.OnConnect {| source := "1"; target := "2";
                                sourceHandle := None; targetHandle := None |}))
    (exec (Part000.dispatch (host := spec_host)
             (Part000.AddNode "junction" origin))
       (exec (Part000.dispatch (host := spec_host)
                (Part000.AddNode "reservoir" origin))
          initial)).

(** * Properties *)

(** ** Lists *)

Lemma retained_filter {A : Type} (keep : A → Prop) (p : A → bool) l :
  (∀ x, p x = true ↔ keep x) → retained keep l (List.filter p l).
Proof.
  intros Hp. induction l as [|x l IH]; simpl.
  - constructor.
  - destruct (p x) eqn:E.
    + apply retained_keep; [by apply Hp | done].
    + apply retained_drop; [|done]. rewrite <- Hp. congruence.
Qed.

Lemma retained_elem_of {A : Type} (keep : A → Prop) l l' :
  retained keep l l' → ∀ x, x ∈ l' ↔ x ∈ l ∧ keep x.
Proof.
  induction 1 as [|x l l' Hx _ IH|x l l' Hx _ IH]; intros y.
  - split; [intros H%elem_of_nil | intros [H%elem_of_nil _]]; done.
  - rewrite !elem_of_cons, IH. intuition congruence.
  - rewrite elem_of_cons, IH. intuition congruence.
Qed.

Lemma retained_sublist {A : Type} (keep : A → Prop) l l' :
  retained keep l l' → sublist l' l.
Proof.
  induction 1; [constructor | by apply sublist_skip | by apply sublist_cons].
Qed.

(** [retained] determines its result. *)
Lemma retained_functional {A : Type} (keep : A → Prop) l l1 l2 :
  retained keep l l1 → retained keep l l2 → l1 = l2.
Proof.
  intros H1. revert l2.
  induction H1 as [|x l l1 Hx _ IH|x l l1 Hx _ IH]; intros l2 H2;
    inversion H2; subst; try done.
  - f_equal. by apply IH.
  - by apply IH.
Qed.

Lemma retained_shorter {A : Type} (keep : A → Prop) l l' x :
  retained keep l l' → x ∈ l → ¬ keep x → (length l' < length l)%nat.
Proof.
  intros H Hx Hk.
  induction H as [|y l l' Hy Hr IH|y l l' Hy Hr IH]; simpl.
  - by apply elem_of_nil in Hx.
  - apply elem_of_cons in Hx as [->|Hx]; [done|]. specialize (IH Hx). lia.
  - apply retained_sublist, sublist_length in Hr. lia.
Qed.


(** ** Running actions *)

Ltac run :=
  unfold exec, node_list, edge_list, selection,
    Part000.deleteElement, Part000.updateEdgeData, Part000.onConnect,
    Store.updateEdgeData, Store.onConnect,
    onNodesChange, onEdgesChange, addNode, updateNodeData, selectElement,
    loadNetwork, clearNetwork,
    bind, ret, alloc, get, set, put_idCounter, getId,
    Array_filter, Array_map, Array_snoc, new_array; simpl.

Lemma deleteElement_node_lists (w : World) (n : string) :
  node_list (exec (Part000.deleteElement n kind_node) w)
  = List.filter (λ nd, negb (bool_decide (node_id nd = n))) (node_list w)
  ∧ edge_list (exec (Part000.deleteElement n kind_node) w)
    = List.filter (λ e, negb (bool_decide (edge_source e = n))
                        && negb (bool_decide (edge_target e = n)))
                  (edge_list w).
Proof. by run. Qed.

Lemma deleteElement_selection_eq (w : World) (id : string) (type : ElementType) :
  selectedElementId (store (exec (Part000.deleteElement id type) w))
  = (if selected_is (selectedElementId (store w)) id
     then None else selectedElementId (store w))
  ∧ selectedElementType (store (exec (Part000.deleteElement id type) w))
    = (if selected_is (selectedElementId (store w)) id
       then None else selectedElementType (store w)).
Proof. by destruct type. Qed.

(** C1.  Deleting a node whose id is in the node collection takes out the
    nodes with that id and the edges that have it as source or target; the
    other nodes and edges stay, with their values and in their order; the
    node collection gets shorter. *)
Theorem deleteElement_node_cascades (w : World) (n : string) :
  (∃ nd, nd ∈ node_list w ∧ node_id nd = n) →
  let w' := exec (Part000.deleteElement n kind_node) w in
  retained (λ nd, node_id nd ≠ n) (node_list w) (node_list w')
  ∧ retained (λ e, edge_source e ≠ n ∧ edge_target e ≠ n)
             (edge_list w) (edge_list w')
  ∧ (∀ nd, nd ∈ node_list w' → node_id nd ≠ n)
  ∧ (∀ e, e ∈ edge_list w' → edge_source e ≠ n ∧ edge_target e ≠ n)
  ∧ (length (node_list w') < length (node_list w))%nat.
Proof.
  intros (nd & Hnd & Hid) w'. subst w'.
  destruct (deleteElement_node_lists w n) as [-> ->].
  assert (Hn : retained (λ nd, node_id nd ≠ n) (node_list w)
            (List.filter (λ nd, negb (bool_decide (node_id nd = n)))
                         (node_list w))).
  { apply retained_filter. intros x.
    rewrite negb_true_iff, bool_decide_eq_false. done. }
  assert (He : retained (λ e, edge_source e ≠ n ∧ edge_target e ≠ n)
            (edge_list w)
            (List.filter (λ e, negb (bool_decide (edge_source e = n))
                               && negb (bool_decide (edge_target e = n)))
                         (edge_list w))).
  { apply retained_filter. intros x.
    rewrite andb_true_iff, !negb_true_iff, !bool_decide_eq_false. done. }
  split; [exact Hn|]. split; [exact He|]. split; [|split].
  - intros x Hx. by apply (retained_elem_of _ _ _ Hn) in Hx as [_ ?].
  - intros x Hx. by apply (retained_elem_of _ _ _ He) in Hx as [_ ?].
  - apply (retained_shorter _ _ _ nd Hn Hnd). intros H. by apply H.
Qed.

Lemma deleteElement_node_cascades_witness :
  (∃ nd, nd ∈ node_list sample_world ∧ node_id nd = "2")
  ∧ let w' := exec (Part000.deleteElement "2" kind_node) sample_world in
    retained (λ nd, node_id nd ≠ "2") (node_list sample_world) (node_list w')
    ∧ retained (λ e, edge_source e ≠ "2" ∧ edge_target e ≠ "2")
               (edge_list sample_world) (edge_list w')
    ∧ (∀ nd, nd ∈ node_list w' → node_id nd ≠ "2")
    ∧ (∀ e, e ∈ edge_list w' → edge_source e ≠ "2" ∧ edge_target e ≠ "2")
    ∧ (length (node_list w') < length (node_list sample_world))%nat.
Proof.
  assert (H : ∃ nd, nd ∈ node_list sample_world ∧ node_id nd = "2").
  { exists (sample_node "2"). split; [|reflexivity].
    apply elem_of_cons; right. apply elem_of_cons; left. reflexivity. }
  split; [exact H|].
  exact (deleteElement_node_cascades sample_world "2" H).
Defined.

Example deleteElement_node_sample :
  let w' := exec (Part000.deleteElement "2" kind_node) sample_world in
  node_id <$> node_list w' = ["1"; "3"] ∧ edge_id <$> edge_list w' = ["e2"].
Proof. split; reflexivity. Qed.

(** C10.  When the selected element is an edge that starts or ends at node
    [n] and whose own id is not [n], deleting node [n] takes that edge out
    and leaves both selection fields as they were: the selection names an
    edge that is no longer there. *)
Theorem deleteElement_node_keeps_edge_selection
    (w : World) (n : string) (e : Edge) :
  e ∈ edge_list w →
  selection w = (Some (edge_id e), Some kind_edge) →
  (edge_source e = n ∨ edge_target e = n) →
  edge_id e ≠ n →
  let w' := exec (Part000.deleteElement n kind_node) w in
  (e ∉ edge_list w')
  ∧ selectedElementId (store w') = Some (edge_id e)
  ∧ selectedElementType (store w') = Some kind_edge.
Proof.
  intros He Hsel Hinc Hid w'. subst w'.
  destruct (deleteElement_selection_eq w n kind_node) as [-> ->].
  injection Hsel as -> ->. simpl.
  rewrite bool_decide_eq_false_2 by done.
  split; [|done].
  destruct (deleteElement_node_lists w n) as [_ ->].
  rewrite list_elem_of_In, filter_In, andb_true_iff, !negb_true_iff,
    !bool_decide_eq_false.
  tauto.
Qed.

Lemma deleteElement_node_keeps_edge_selection_witness :
  sample_edge "e3" "2" "3" ∈ edge_list world_e3_selected
  ∧ selection world_e3_selected = (Some "e3", Some kind_edge)
  ∧ let w' := exec (Part000.deleteElement "2" kind_node) world_e3_selected in
    (sample_edge "e3" "2" "3" ∉ edge_list w')
    ∧ selectedElementId (store w') = Some "e3"
    ∧ selectedElementType (store w') = Some kind_edge.
Proof.
  assert (H : sample_edge "e3" "2" "3" ∈ edge_list world_e3_selected).
  { do 2 (apply elem_of_cons; right). apply elem_of_cons; left. reflexivity. }
  split; [exact H|]. split; [reflexivity|].
  apply (deleteElement_node_keeps_edge_selection
           world_e3_selected "2" (sample_edge "e3" "2" "3") H).
  - reflexivity.
  - left. reflexivity.
  - discriminate.
Defined.

(** C6, as the code has it.  [deleteElement] compares ids only: when the
    selected id is the deleted id both selection fields become null, and
    when it is another id (or nothing is selected) both stay. *)
Theorem deleteElement_selection_by_id
    (w : World) (id : string) (type : ElementType) :
  let w' := exec (Part000.deleteElement id type) w in
  (selectedElementId (store w) = Some id →
   selectedElementId (store w') = None
   ∧ selectedElementType (store w') = None)
  ∧ (selectedElementId (store w) ≠ Some id →
     selectedElementId (store w') = selectedElementId (store w)
     ∧ selectedElementType (store w') = selectedElementType (store w)).
Proof.
  intros w'. subst w'.
  destruct (deleteElement_selection_eq w id type) as [-> ->]. split.
  - intros ->. simpl. by rewrite bool_decide_eq_true_2.
  - intros Hsel.
    destruct (selectedElementId (store w)) as [s|]; simpl; [|done].
    rewrite bool_decide_eq_false_2; [done | congruence].
Qed.

Lemma deleteElement_selection_by_id_witness :
  selectedElementId (store world_node1_selected) = Some "1"
  ∧ selectedElementId (store world_node1_selected) ≠ Some "e2"
  ∧ selection (exec (Part000.deleteElement "1" kind_node)
                    world_node1_selected) = (None, None)
  ∧ selection (exec (Part000.deleteElement "e2" kind_edge)
                    world_node1_selected) = (Some "1", Some kind_node).
Proof.
  assert (H1 : selectedElementId (store world_node1_selected) = Some "1")
    by reflexivity.
  assert (H2 : selectedElementId (store world_node1_selected) ≠ Some "e2")
    by discriminate.
  split; [exact H1|]. split; [exact H2|]. split.
  - destruct (deleteElement_selection_by_id world_node1_selected "1" kind_node)
      as [Hc _].
    destruct (Hc H1) as [Ha Hb]. unfold selection. by rewrite Ha, Hb.
  - destruct (deleteElement_selection_by_id world_node1_selected "e2"
                kind_edge) as [_ Hk].
    destruct (Hk H2) as [Ha Hb]. unfold selection. by rewrite Ha, Hb.
Defined.

(** C6 as stated fails: with node "3" selected, deleting the edge "3", which
    is another element, clears the selection, and node "3" is still there. *)
Lemma deleteElement_other_element_clears_selection :
  let w := world_shared_id in
  let w' := exec (Part000.deleteElement "3" kind_edge) w in
  selection w = (Some "3", Some kind_node)
  ∧ ("3", kind_edge) ≠ ("3", kind_node)
  ∧ sample_edge "3" "4" "4" ∈ edge_list w
  ∧ node_id <$> node_list w' = ["3"; "4"]
  ∧ selection w' = (None, None)
  ∧ selection w' ≠ selection w.
Proof.
  repeat split; try reflexivity; try discriminate.
  apply elem_of_cons; left. reflexivity.
Qed.

(** ** The selection invariant *)

Section Selection.
Context {host : Xyflow}.

Lemma onNodesChange_selection changes w :
  selection (exec (onNodesChange changes) w) = selection w.
Proof. run. by destruct (applyNodeChanges _ _ _). Qed.

Lemma onEdgesChange_selection changes w :
  selection (exec (onEdgesChange changes) w) = selection w.
Proof. run. by destruct (applyEdgeChanges _ _ _). Qed.

Lemma Store_onConnect_selection c w :
  selection (exec (Store.onConnect c) w) = selection w.
Proof. run. by destruct (addEdge _ _ _). Qed.

Lemma Part000_onConnect_selection c w :
  selection (exec (Part000.onConnect c) w) = selection w.
Proof. run. by destruct (addEdge _ _ _). Qed.

Lemma selection_paired_eq w w' :
  selection w' = selection w → selection_paired w → selection_paired w'.
Proof. unfold selection, selection_paired. by intros [= -> ->]. Qed.

Lemma Store_dispatch_paired a w :
  Store.paired a → selection_paired w →
  selection_paired (exec (Store.dispatch a) w).
Proof.
  intros Ha Hw. destruct a; simpl in *;
    try (by (eapply selection_paired_eq; [|exact Hw];
             first [apply onNodesChange_selection
                   |apply onEdgesChange_selection
                   |apply Store_onConnect_selection
                   |reflexivity])).
  - exact Ha.
  - done.
  - done.
Qed.

Lemma Part000_dispatch_paired a w :
  Part000.paired a → selection_paired w →
  selection_paired (exec (Part000.dispatch a) w).
Proof.
  intros Ha Hw. destruct a; simpl in *;
    try (by (eapply selection_paired_eq; [|exact Hw];
             first [apply onNodesChange_selection
                   |apply onEdgesChange_selection
                   |apply Part000_onConnect_selection
                   |reflexivity])).
  - unfold selection_paired.
    destruct (deleteElement_selection_eq w id type) as [-> ->].
    by destruct (selected_is _ _).
  - exact Ha.
  - done.
  - done.
Qed.

End Selection.

(** C7, as the code has it.  In every state either revision of the store
    reaches from the initial state through actions in which [selectElement]
    gets both arguments null or both not null, [selectedElementId] is null
    exactly when [selectedElementType] is. *)
Theorem selection_fields_null_together (host : Xyflow) (w : World) :
  reachable Store.paired Store.dispatch w
  ∨ reachable Part000.paired Part000.dispatch w →
  selectedElementId (store w) = None ↔ selectedElementType (store w) = None.
Proof.
  intros [H|H]; change (selection_paired w).
  - induction H as [|a w _ IH Ha]; [done|]. by apply Store_dispatch_paired.
  - induction H as [|a w _ IH Ha]; [done|]. by apply Part000_dispatch_paired.
Qed.

Lemma selection_fields_null_together_witness :
  reachable Part000.paired (Part000.dispatch (host := spec_host))
            add_select_delete
  ∧ (selectedElementId (store add_select_delete) = None
     ↔ selectedElementType (store add_select_delete) = None).
Proof.
  assert (H : reachable Part000.paired (Part000.dispatch (host := spec_host))
                        add_select_delete).
  { unfold add_select_delete.
    apply reachable_step; [apply reachable_step; [apply reachable_step|]|].
    - apply reachable_initial.
    - exact I.
    - simpl. split; discriminate.
    - exact I. }
  split; [exact H|].
  apply (selection_fields_null_together spec_host). right. exact H.
Defined.

(** C7 as stated fails: [selectElement("3", null)] is a store operation, and
    after it the id is set and the type is null. *)
Lemma selectElement_unpaired_breaks_invariant :
  let w := exec (Store.dispatch (host := spec_host)
                   (Store.SelectElement (Some "3") None)) initial in
  reachable any (Store.dispatch (host := spec_host)) w
  ∧ selectedElementId (store w) = Some "3"
  ∧ selectedElementType (store w) = None
  ∧ ¬ (selectedElementId (store w) = None
       ↔ selectedElementType (store w) = None).
Proof.
  split; [|split; [reflexivity|split; [reflexivity|]]].
  - apply reachable_step; [apply reachable_initial | exact I].
  - simpl. intros [_ H]. by specialize (H eq_refl).
Qed.

(** ** Connecting *)

Ltac use_appends Happ :=
  match goal with
  | |- context [addEdge ?e ?es ?h] =>
      let Hes := fresh "Hes" in
      pose proof (Happ e es h) as Hes;
      destruct (addEdge e es h) as [? ?]; simpl in Hes |- *
  end.

Lemma connected_appended (c : Connection) (w w' : World) (e : Edge)
    (d : gmap string JSVal) :
  edge_list w' = (edge_list w ++ [e])%list →
  edge_source e = source c → edge_target e = target c →
  edge_data e = Some d → default_attributes d →
  connected c w w'.
Proof.
  intros Hl Hs Ht Hd Ha. exists e, d. split; [exact Hl|]. split; [|done].
  rewrite Hl, length_app. simpl. lia.
Qed.

Ltac use_library Hlib :=
  match goal with
  | |- context [addEdge ?e ?es ?h] =>
      rewrite (Hlib e es h); unfold library_addEdge; simpl
  end.

(** C2, as the code and the library have it.  With the library's
    [addEdge], [onConnect] of either revision adds one edge at the end of
    the edge collection, from the candidate's source to its target (the
    two may be the same node) and with the default engineering attributes,
    when source and target are not empty and no edge has the same source,
    target and handles; the collection then grows by one.  For a candidate
    that repeats a connection, or has an empty source or target, the edge
    collection keeps its elements. *)
Theorem onConnect_appends_unless_connected
    (host : Xyflow) (w : World) (c : Connection) :
  addEdge_as_library host →
  let repeated :=
    connectionExists (source c) (target c) (sourceHandle c) (targetHandle c)
                     (edge_list w) in
  (source c ≠ "" → target c ≠ "" → repeated = false →
   connected c w (exec (Store.onConnect c) w)
   ∧ connected c w (exec (Part000.onConnect c) w))
  ∧ (source c = "" ∨ target c = "" ∨ repeated = true →
     edge_list (exec (Store.onConnect c) w) = edge_list w
     ∧ edge_list (exec (Part000.onConnect c) w) = edge_list w).
Proof.
  intros Hlib repeated. subst repeated. unfold edge_list at 1 2. split.
  - intros Hs Ht Hr. split.
    + run. use_library Hlib. rewrite !bool_decide_eq_false_2 by done.
      simpl. rewrite Hr. simpl.
      by eapply connected_appended.
    + run. use_library Hlib. rewrite !bool_decide_eq_false_2 by done.
      simpl. rewrite Hr. simpl.
      by eapply connected_appended.
  - intros Hc. split.
    + run. use_library Hlib.
      destruct Hc as [->|[->|Hr]]; [done|by rewrite orb_true_r|].
      rewrite Hr. by destruct (_ || _).
    + run. use_library Hlib.
      destruct Hc as [->|[->|Hr]]; [done|by rewrite orb_true_r|].
      rewrite Hr. by destruct (_ || _).
Qed.

(** In the sample network the loop at "1" is new and the edge from "1" to
    "2" is there already. *)
Lemma onConnect_appends_unless_connected_witness :
  addEdge_as_library library_host
  ∧ connectionExists "1" "1" None None (edge_list sample_world) = false
  ∧ connectionExists "1" "2" None None (edge_list sample_world) = true
  ∧ connected loop_1_1 sample_world
      (exec (Store.onConnect (host := library_host) loop_1_1) sample_world)
  ∧ edge_list (exec (Part000.onConnect (host := library_host) again_1_2)
                    sample_world)
    = edge_list sample_world.
Proof.
  assert (H : addEdge_as_library library_host) by (intros e es h; reflexivity).
  split; [exact H|]. split; [reflexivity|]. split; [reflexivity|].
  destruct (onConnect_appends_unless_connected library_host sample_world
              loop_1_1 H) as [Hnew _].
  destruct (onConnect_appends_unless_connected library_host sample_world
              again_1_2 H) as [_ Hold].
  split.
  - apply Hnew; [discriminate|discriminate|reflexivity].
  - apply Hold. right. right. reflexivity.
Defined.

(** C2 as stated fails: the candidate from "1" to "2" repeats the edge "e1"
    of the sample network, and after [onConnect] the edge collection has
    the three edges it had. *)
Lemma onConnect_repeated_connection_adds_nothing :
  let w' := exec (Store.onConnect (host := library_host) again_1_2)
                 sample_world in
  (λ e, (edge_id e, edge_source e, edge_target e)) <$> edge_list sample_world
  = [("e1", "1", "2"); ("e2", "3", "1"); ("e3", "2", "3")]
  ∧ edge_list w' = edge_list sample_world
  ∧ length (edge_list w') ≠ S (length (edge_list sample_world))
  ∧ ¬ connected again_1_2 sample_world w'.
Proof.
  split; [reflexivity|]. split; [reflexivity|]. split; [discriminate|].
  intros (e & d & _ & Hlen & _). discriminate Hlen.
Qed.

(** ** Loading and clearing *)

Lemma orZero_parseInt (id : string) : orZero (parseInt id) = id_value id.
Proof.
  unfold id_value. destruct (parseInt id) as [z|]; simpl; [|done].
  by case_bool_decide.
Qed.

Lemma Math_max_bounds (l : list Z) (last : Z) :
  last ≤ Math_max l last
  ∧ (∀ z, z ∈ l → z ≤ Math_max l last)
  ∧ (Math_max l last = last ∨ Math_max l last ∈ l).
Proof.
  unfold Math_max. induction l as [|x l (IH1 & IH2 & IH3)]; simpl.
  - split; [lia|]. split; [|by left]. by intros z H%elem_of_nil.
  - split; [lia|]. split.
    + intros z [->|H]%elem_of_cons; [lia|]. specialize (IH2 z H). lia.
    + destruct (Z.max_spec x (foldr Z.max last l)) as [[_ ->]|[_ ->]].
      * destruct IH3 as [?|?]; [by left|]. right. by apply elem_of_cons; right.
      * right. apply elem_of_cons; by left.
Qed.

Lemma loadNetwork_idCounter (w : World) (ns : Arr Node) (es : Arr Edge) :
  idCounter (exec (loadNetwork ns es) w) = Math_max (loaded_ids ns es) 0 + 1.
Proof.
  run. unfold loaded_ids. do 2 f_equal. f_equal.
  - apply list_fmap_ext. intros _ n _. apply orZero_parseInt.
  - apply list_fmap_ext. intros _ e _. apply orZero_parseInt.
Qed.

Lemma addNode_appends (w : World) (type : string) (position : XYPosition) :
  ∃ new,
    node_list (exec (addNode type position) w) = (node_list w ++ [new])%list
    ∧ node_id new = toString (idCounter w).
Proof. run. by eexists. Qed.

(** C3, as the code has it.  When no id of the two collections reads, by
    [parseInt], as more than [MAX_SAFE_INTEGER], the id counter after
    [loadNetwork] is one more than the greatest of 0 and these ids (an id
    that is not numeric counting as 0); the collections are the given ones
    and both selection fields are null.  With a node of id "5" and an edge
    of id "7", the next [addNode] gives the new node the id "8". *)
Theorem loadNetwork_resets_counter (w : World) (ns : Arr Node) (es : Arr Edge) :
  (∀ z, z ∈ loaded_ids ns es → z ≤ MAX_SAFE_INTEGER) →
  let w' := exec (loadNetwork ns es) w in
  let m := idCounter w' - 1 in
  (0 ≤ m
   ∧ (∀ z, z ∈ loaded_ids ns es → z ≤ m)
   ∧ (m = 0 ∨ m ∈ loaded_ids ns es))
  ∧ nodes (store w') = ns
  ∧ edges (store w') = es
  ∧ selectedElementId (store w') = None
  ∧ selectedElementType (store w') = None
  ∧ (node_id <$> arr_items ns = ["5"] → edge_id <$> arr_items es = ["7"] →
     ∀ type position, ∃ new,
       node_list (exec (addNode type position) w') = (arr_items ns ++ [new])%list
       ∧ node_id new = "8").
Proof.
  intros _ w' m. subst m w'.
  rewrite loadNetwork_idCounter.
  replace (Math_max (loaded_ids ns es) 0 + 1 - 1)
    with (Math_max (loaded_ids ns es) 0) by lia.
  split; [apply Math_max_bounds|].
  do 4 (split; [reflexivity|]).
  intros Hn He type position.
  destruct (addNode_appends (exec (loadNetwork ns es) w) type position)
    as (new & Hl & Hid).
  exists new. split; [exact Hl|].
  rewrite Hid, loadNetwork_idCounter. unfold loaded_ids.
  rewrite !list_fmap_compose, Hn, He. reflexivity.
Qed.

Lemma loadNetwork_resets_counter_witness :
  let ns := mkArr 10%nat [sample_node "5"] in
  let es := mkArr 11%nat [sample_edge "7" "5" "5"] in
  (∀ z, z ∈ loaded_ids ns es → z ≤ MAX_SAFE_INTEGER)
  ∧ node_id <$> arr_items ns = ["5"]
  ∧ edge_id <$> arr_items es = ["7"]
  ∧ idCounter (exec (loadNetwork ns es) initial) = 8
  ∧ ∃ new,
      node_list (exec (addNode "junction" origin)
                      (exec (loadNetwork ns es) initial))
      = (arr_items ns ++ [new])%list
      ∧ node_id new = "8".
Proof.
  intros ns es.
  assert (Hb : ∀ z, z ∈ loaded_ids ns es → z ≤ MAX_SAFE_INTEGER).
  { intros z Hz. change (loaded_ids ns es) with [5; 7] in Hz.
    rewrite !elem_of_cons in Hz.
    destruct Hz as [->|[->|Hz]]; [done|done|by apply elem_of_nil in Hz]. }
  split; [exact Hb|].
  split; [reflexivity|]. split; [reflexivity|]. split; [reflexivity|].
  destruct (loadNetwork_resets_counter initial ns es Hb)
    as (_ & _ & _ & _ & _ & H).
  exact (H eq_refl eq_refl "junction" origin).
Defined.

(** C3 as stated fails: with the single id "-5" the greatest id is -5, and
    the counter becomes 1, not -4. *)
Lemma loadNetwork_negative_id_counter :
  let ns := mkArr 10%nat [sample_node "-5"] in
  let es := mkArr 11%nat [] in
  let w' := exec (loadNetwork ns es) initial in
  is_max (-5) (loaded_ids ns es)
  ∧ idCounter w' = 1
  ∧ idCounter w' ≠ -5 + 1.
Proof.
  split; [|split; [reflexivity|discriminate]].
  split.
  - apply elem_of_cons; left. reflexivity.
  - intros z [->|H]%elem_of_cons; [done|]. by apply elem_of_nil in H.
Qed.

(** C4.  [clearNetwork] empties both collections, makes both selection
    fields null and sets the id counter to 1; the node an [addNode] adds
    next has the id "1". *)
Theorem clearNetwork_resets (w : World) (type : string) (position : XYPosition) :
  let w' := exec clearNetwork w in
  node_list w' = []
  ∧ edge_list w' = []
  ∧ selectedElementId (store w') = None
  ∧ selectedElementType (store w') = None
  ∧ idCounter w' = 1
  ∧ ∃ new, node_list (exec (addNode type position) w') = [new]
           ∧ node_id new = "1".
Proof.
  intros w'. do 5 (split; [reflexivity|]).
  destruct (addNode_appends w' type position) as (new & Hl & Hid).
  exists new. split; [exact Hl|]. rewrite Hid. reflexivity.
Qed.

(** ** Updating data *)


Lemma Store_updateEdgeData_list (w : World) (id : string)
    (data : gmap string JSVal) :
  edge_list (exec (Store.updateEdgeData id data) w)
  = Store.updateEdge id data <$> edge_list w.
Proof. by run. Qed.



(** The arrays of a store are arrays that exist: their identities are
    below the next one, in every state reached with a library that returns
    the array it was given or one it builds, and with [loadNetwork] given
    arrays that exist. *)
Lemma arrays_allocated_reachable (host : Xyflow) (w : World) :
  host_allocates host →
  reachable_when (Store_loads_allocated host) Store.dispatch w
  ∨ reachable_when (Part000_loads_allocated host) Part000.dispatch w →
  arrays_allocated w.
Proof.
  intros (Hn & He & Ha) [H|H].
  - induction H as [|a w _ [IHn IHe] Hg]; [split; simpl; lia|].
    unfold arrays_allocated in *.
    destruct a; simpl in Hg |- *; try (split; simpl; lia).
    + run. specialize (Hn changes (nodes (store w)) (heap w)).
      destruct (applyNodeChanges _ _ _); simpl in *. lia.
    + run. specialize (He changes (edges (store w)) (heap w)).
      destruct (applyEdgeChanges _ _ _); simpl in *. lia.
    + run.
      match goal with
      | |- context [addEdge ?e ?es ?h] =>
          specialize (Ha e es h); destruct (addEdge e es h)
      end; simpl in *. lia.
  - induction H as [|a w _ [IHn IHe] Hg]; [split; simpl; lia|].
    unfold arrays_allocated in *.
    destruct a; simpl in Hg |- *; try (split; simpl; lia).
    + run. specialize (Hn changes (nodes (store w)) (heap w)).
      destruct (applyNodeChanges _ _ _); simpl in *. lia.
    + run. specialize (He changes (edges (store w)) (heap w)).
      destruct (applyEdgeChanges _ _ _); simpl in *. lia.
    + run.
      match goal with
      | |- context [addEdge ?e ?es ?h] =>
          specialize (Ha e es h); destruct (addEdge e es h)
      end; simpl in *. lia.
    + change (exec (Part000.updateEdgeData id data) w) with w. lia.
    + destruct type; simpl; lia.
Qed.

Lemma library_host_allocates : host_allocates library_host.
Proof.
  split; [|split]; intros x a h; simpl;
    try (unfold new_array; simpl; split; [lia|right; lia]).
  unfold library_addEdge, same, new_array.
  destruct (_ || _); [simpl; split; [lia|by left]|].
  destruct (connectionExists _ _ _ _ _); simpl.
  - split; [lia|by left].
  - split; [lia|right; lia].
Qed.




Lemma Store_updateEdge_id (id : string) (data : gmap string JSVal) (e : Edge) :
  edge_id (Store.updateEdge id data e) = edge_id e.
Proof.
  unfold Store.updateEdge. case_bool_decide; [|done].
  by repeat destruct (is_string _ _).
Qed.

(** In [store.ts], [updateEdgeData] with [type: 'dummy'] in the patch gives
    every edge of that id the dashed gray style and the gray marker, and
    with [type: 'conduit'] the solid blue style and the blue marker; an id
    that was in the collection still is. *)
Lemma Store_updateEdgeData_restyles (w : World) (id : string)
    (data : gmap string JSVal) :
  let w' := exec (Store.updateEdgeData id data) w in
  edge_id <$> edge_list w' = edge_id <$> edge_list w
  ∧ (data !! "type" = Some (VStr "dummy") →
     ∀ e, e ∈ edge_list w' → edge_id e = id →
       edge_style e = Some dummy_style
       ∧ edge_markerEnd e = Some dummy_marker
       ∧ dummy_style !! "stroke" = Some (VStr "#94a3b8")
       ∧ dummy_style !! "strokeDasharray" = Some (VStr "5,5"))
  ∧ (data !! "type" = Some (VStr "conduit") →
     ∀ e, e ∈ edge_list w' → edge_id e = id →
       edge_style e = Some conduit_style
       ∧ edge_markerEnd e = Some conduit_marker
       ∧ conduit_style !! "stroke" = Some (VStr "#3b82f6")
       ∧ conduit_style !! "strokeDasharray" = None).
Proof.
  intros w'. subst w'. rewrite Store_updateEdgeData_list. split; [|split].
  - rewrite <- list_fmap_compose. apply list_fmap_ext.
    intros _ e _. apply Store_updateEdge_id.
  - intros Hty e (e0 & -> & _)%list_elem_of_fmap Hid.
    rewrite Store_updateEdge_id in Hid.
    unfold Store.updateEdge. rewrite bool_decide_eq_true_2 by done.
    rewrite Hty. by simpl.
  - intros Hty e (e0 & -> & _)%list_elem_of_fmap Hid.
    rewrite Store_updateEdge_id in Hid.
    unfold Store.updateEdge. rewrite bool_decide_eq_true_2 by done.
    rewrite Hty. by simpl.
Qed.

(** In the revision with [deleteElement], [updateEdgeData] leaves the world
    as it is, whatever the id and the patch. *)
Lemma Part000_updateEdgeData_inert (w : World) (id : string)
    (data : gmap string JSVal) :
  exec (Part000.updateEdgeData id data) w = w.
Proof. by destruct w. Qed.

(** C8 at a failing input.  In the revision with [deleteElement],
    [updateEdgeData] has no statements: after connecting "a" to "b" (edge
    "1") and calling [updateEdgeData("1", {type: 'dummy'})] the store is what
    it was, and edge "1" has the stroke of its creation, not the dashed
    gray style. *)
Theorem Part000_updateEdgeData_keeps_style :
  let w := exec (Part000.onConnect (host := spec_host)
                   {| source := "a"; target := "b";
                      sourceHandle := None; targetHandle := None |})
                initial in
  let w' := exec (Part000.updateEdgeData "1" {[ "type" := VStr "dummy" ]}) w in
  edge_id <$> edge_list w = ["1"]
  ∧ w' = w
  ∧ (λ e, edge_style e ≫= (.!! "stroke")) <$> edge_list w'
    = [Some (VStr "#64748b")]
  ∧ (λ e, edge_style e ≫= (.!! "strokeDasharray")) <$> edge_list w' = [None].
Proof. repeat split; reflexivity. Qed.

(** ** The renderer *)

(** C9.  The path of the marker is filled with the stroke of the style
    given to the component when that is a colour (a string that is not
    empty), and with '#3b82f6' when the style is missing, has no stroke or
    has an undefined or empty one.  The marker is the triangle, and the
    edge's [markerEnd] refers to it. *)
Theorem ConnectionEdge_marker_fill (host : Xyflow) (props : EdgeProps) :
  let out := ConnectionEdge props in
  let stroke := props_style props ≫= (.!! "stroke") in
  (∀ c, stroke = Some (VStr c) → c ≠ "" →
        path_fill (defs_marker out) = VStr c)
  ∧ (stroke = None ∨ stroke = Some VUndef ∨ stroke = Some (VStr "") →
     path_fill (defs_marker out) = VStr "#3b82f6")
  ∧ path_d (defs_marker out) = "M0,0 L6,3 L0,6 z"
  ∧ base_markerEnd (base_edge out)
    = "url(#" +:+ marker_id (defs_marker out) +:+ ")".
Proof.
  intros out stroke. subst out stroke.
  unfold ConnectionEdge, stroke_or_default. simpl.
  destruct (props_style props) as [style|]; simpl.
  - split; [|split; [|done]].
    + intros c -> Hc. simpl. by rewrite bool_decide_eq_false_2.
    + by intros [->|[->| ->]].
  - split; [|split; [|done]].
    + by intros c.
    + by rewrite lookup_empty.
Qed.

Lemma ConnectionEdge_marker_fill_witness :
  let props :=
    {| props_id := "7"; sourceX := 0; sourceY := 0; targetX := 10;
       targetY := 5; sourcePosition := Right; targetPosition := Left;
       props_style := Some dummy_style; props_markerEnd := None |} in
  let bare :=
    {| props_id := "8"; sourceX := 0; sourceY := 0; targetX := 10;
       targetY := 5; sourcePosition := Right; targetPosition := Left;
       props_style := None; props_markerEnd := None |} in
  path_fill (defs_marker (ConnectionEdge (host := spec_host) props))
  = VStr "#94a3b8"
  ∧ path_fill (defs_marker (ConnectionEdge (host := spec_host) bare))
    = VStr "#3b82f6".
Proof.
  intros props bare. split.
  - destruct (ConnectionEdge_marker_fill spec_host props) as [H _].
    apply (H "#94a3b8"); [reflexivity | discriminate].
  - destruct (ConnectionEdge_marker_fill spec_host bare) as (_ & H & _).
    apply H. left. reflexivity.
Defined.

(** * Further properties *)

(** ** Decimal numerals *)

Lemma parseDigits_step (R : Z) (c : ascii) (r : string) (acc : option Z) (k : Z) :
  digitValue c = Some k → k < R →
  parseDigits R (String c r) acc = parseDigits R r (Some (default 0 acc * R + k)).
Proof.
  intros Hc Hk. simpl. rewrite Hc.
  destruct (Z.ltb_spec k R); [done | lia].
Qed.

Ltac digit_step :=
  first [ rewrite (parseDigits_step 10 _ _ _ 0) by (reflexivity || lia)
        | rewrite (parseDigits_step 10 _ _ _ 1) by (reflexivity || lia)
        | rewrite (parseDigits_step 10 _ _ _ 2) by (reflexivity || lia)
        | rewrite (parseDigits_step 10 _ _ _ 3) by (reflexivity || lia)
        | rewrite (parseDigits_step 10 _ _ _ 4) by (reflexivity || lia)
        | rewrite (parseDigits_step 10 _ _ _ 5) by (reflexivity || lia)
        | rewrite (parseDigits_step 10 _ _ _ 6) by (reflexivity || lia)
        | rewrite (parseDigits_step 10 _ _ _ 7) by (reflexivity || lia)
        | rewrite (parseDigits_step 10 _ _ _ 8) by (reflexivity || lia)
        | rewrite (parseDigits_step 10 _ _ _ 9) by (reflexivity || lia) ].

Lemma parseDigits_decimal (d : Decimal.uint) (a : option Z) :
  d ≠ Decimal.Nil ∨ is_Some a →
  parseDigits 10 (NilEmpty.string_of_uint d) a
  = Some (digits_value d (default 0 a)).
Proof.
  revert a. induction d; intros a Ha; simpl NilEmpty.string_of_uint.
  { destruct Ha as [?|[z ->]]; done. }
  all: digit_step; rewrite IHd by (right; done); simpl; do 2 f_equal; lia.
Qed.

Lemma digits_value_acc (d : Decimal.uint) (a : positive) :
  digits_value d (Z.pos a) = Z.pos (Pos.of_uint_acc d a).
Proof.
  revert a. induction d; intros a; simpl; [done|..];
    rewrite <- IHd; f_equal; lia.
Qed.

Lemma digits_value_of_uint (d : Decimal.uint) :
  digits_value d 0 = Z.of_N (Pos.of_uint d).
Proof.
  induction d; simpl; [done|done|..]; apply digits_value_acc.
Qed.

Lemma digits_value_to_uint (p : positive) :
  digits_value (Pos.to_uint p) 0 = Z.pos p.
Proof. by rewrite digits_value_of_uint, Unsigned.of_to. Qed.

(** No decimal numeral starts like a hexadecimal literal. *)
Lemma decimal_not_hex (d : Decimal.uint) :
  match NilEmpty.string_of_uint d with
  | String "0" (String "x" r) => (16, r)
  | String "0" (String "X" r) => (16, r)
  | _ => (10, NilEmpty.string_of_uint d)
  end = (10, NilEmpty.string_of_uint d).
Proof. destruct d as [|d|d|d|d|d|d|d|d|d|d]; try done. by destruct d. Qed.

Lemma trimStart_decimal (d : Decimal.uint) :
  trimStart (NilEmpty.string_of_uint d) = NilEmpty.string_of_uint d.
Proof. by destruct d. Qed.

Lemma parseInt_decimal (d : Decimal.uint) :
  d ≠ Decimal.Nil →
  parseInt (NilEmpty.string_of_uint d) = Some (digits_value d 0)
  ∧ parseInt (String "-" (NilEmpty.string_of_uint d)) = Some (- digits_value d 0).
Proof.
  intros Hd. unfold parseInt. split.
  - rewrite trimStart_decimal.
    assert (Hs : match NilEmpty.string_of_uint d with
                 | String "-" r => (-1, r)
                 | String "+" r => (1, r)
                 | _ => (1, NilEmpty.string_of_uint d)
                 end = (1, NilEmpty.string_of_uint d)) by by destruct d.
    rewrite Hs, decimal_not_hex, parseDigits_decimal by (by left).
    simpl. by destruct (digits_value d 0).
  - change (trimStart (String "-" ?s)) with (String "-" s).
    cbv iota beta. rewrite decimal_not_hex, parseDigits_decimal by (by left).
    simpl. by destruct (digits_value d 0).
Qed.

Lemma parseInt_toString (z : Z) : parseInt (toString z) = Some z.
Proof.
  unfold toString. destruct z as [|p|p]; [done|..]; simpl.
  - pose proof (Unsigned.to_uint_nonnil p) as Hp.
    assert (E : NilZero.string_of_uint (Pos.to_uint p)
                = NilEmpty.string_of_uint (Pos.to_uint p))
      by (by destruct (Pos.to_uint p)).
    rewrite E. destruct (parseInt_decimal _ Hp) as [-> _].
    by rewrite digits_value_to_uint.
  - pose proof (Unsigned.to_uint_nonnil p) as Hp.
    assert (E : NilZero.string_of_uint (Pos.to_uint p)
                = NilEmpty.string_of_uint (Pos.to_uint p))
      by (by destruct (Pos.to_uint p)).
    rewrite E. destruct (parseInt_decimal _ Hp) as [_ ->].
    by rewrite digits_value_to_uint.
Qed.

(** Different integers print differently. *)
Lemma toString_inj (a b : Z) : toString a = toString b → a = b.
Proof.
  intros H. apply (f_equal parseInt) in H.
  rewrite !parseInt_toString in H. by injection H.
Qed.

Lemma id_value_toString (z : Z) : id_value (toString z) = z.
Proof. unfold id_value. by rewrite parseInt_toString. Qed.

(** X1.  While the counter is a safe integer, the id that [getId] returns
    is read back by [parseInt] as the value the counter had, which is the
    [nodeNumber] of the node [addNode] makes with it; [getId] advances the
    counter by one; and two values of the counter give two ids. *)
Theorem getId_reads_back (w : World) :
  1 ≤ idCounter w ≤ MAX_SAFE_INTEGER →
  parseInt (getId w).1 = Some (idCounter w)
  ∧ id_value (getId w).1 = idCounter w
  ∧ idCounter (getId w).2 = idCounter w + 1
  ∧ (∀ type position, ∃ new,
       node_list (exec (addNode type position) w)
       = (node_list w ++ [new])%list
       ∧ node_id new = (getId w).1
       ∧ parseInt (node_id new) = Some (idCounter w))
  ∧ (∀ w2, 1 ≤ idCounter w2 ≤ MAX_SAFE_INTEGER →
           (getId w2).1 = (getId w).1 → idCounter w2 = idCounter w).
Proof.
  intros _. simpl.
  split; [apply parseInt_toString|]. split; [apply id_value_toString|].
  split; [reflexivity|]. split.
  - intros type position.
    destruct (addNode_appends w type position) as (new & Hl & Hid).
    exists new. split; [exact Hl|]. split; [exact Hid|].
    rewrite Hid. apply parseInt_toString.
  - intros w2 _ H. by apply toString_inj.
Qed.

Lemma getId_reads_back_witness :
  1 ≤ idCounter two_nodes_connected ≤ MAX_SAFE_INTEGER
  ∧ (getId two_nodes_connected).1 = "4"
  ∧ parseInt (getId two_nodes_connected).1 = Some 4
  ∧ idCounter (getId two_nodes_connected).2 = 5.
Proof.
  assert (H : 1 ≤ idCounter two_nodes_connected ≤ MAX_SAFE_INTEGER)
    by (vm_compute; split; discriminate).
  split; [exact H|]. split; [reflexivity|].
  destruct (getId_reads_back two_nodes_connected H) as (Hp & _ & Hc & _).
  split; [exact Hp | exact Hc].
Defined.

(** ** New nodes *)

Lemma new_node_data_eq w type position :
  new_node_data w type position
  = Some (initialData_for type (toString (idCounter w))).
Proof. unfold new_node_data. run. by rewrite last_snoc. Qed.

(** X2.  While the counter is a safe integer, the data of a new node is
    exactly the default set of its variant, numbered with the value of the
    counter; a type outside the five variants gets an empty label, its
    type and nothing else. *)
Theorem addNode_default_attributes (w : World) (position : XYPosition) :
  1 ≤ idCounter w ≤ MAX_SAFE_INTEGER →
  let c := VNum (inject_Z (idCounter w)) in
  let id := toString (idCounter w) in
  new_node_data w "reservoir" position
  = Some {[ "label" := VStr "HW"; "type" := VStr "reservoir";
            "nodeNumber" := c; "elevation" := VNum 100 ]}
  ∧ new_node_data w "node" position
    = Some {[ "label" := VStr ("Node " +:+ id); "type" := VStr "node";
              "nodeNumber" := c; "elevation" := VNum 50 ]}
  ∧ new_node_data w "junction" position
    = Some {[ "label" := VStr ("Node " +:+ id); "type" := VStr "junction";
              "nodeNumber" := c; "elevation" := VNum 50 ]}
  ∧ new_node_data w "surgeTank" position
    = Some {[ "label" := VStr "ST"; "type" := VStr "surgeTank";
              "nodeNumber" := c; "topElevation" := VNum 120;
              "bottomElevation" := VNum 80; "diameter" := VNum 5;
              "celerity" := VNum 1000; "friction" := VNum 0.01 ]}
  ∧ new_node_data w "flowBoundary" position
    = Some {[ "label" := VStr ("FB" +:+ id); "type" := VStr "flowBoundary";
              "nodeNumber" := c; "scheduleNumber" := VNum 1 ]}
  ∧ (∀ type, type ∉ ["reservoir"; "node"; "junction"; "surgeTank";
                      "flowBoundary"] →
       new_node_data w type position
       = Some {[ "label" := VStr ""; "type" := VStr type ]}).
Proof.
  intros _ c id. subst c id. rewrite !new_node_data_eq.
  unfold initialData_for. rewrite !parseInt_toString. simpl.
  split; [|split; [|split; [|split; [|split]]]];
    try (f_equal; vm_compute; reflexivity).
  intros type Hty. rewrite new_node_data_eq. unfold initialData_for.
  rewrite !not_elem_of_cons in Hty. destruct Hty as (?&?&?&?&?&_).
  by rewrite !bool_decide_eq_false_2.
Qed.

Lemma addNode_default_attributes_witness :
  1 ≤ idCounter initial ≤ MAX_SAFE_INTEGER
  ∧ ("pump" ∉ ["reservoir"; "node"; "junction"; "surgeTank"; "flowBoundary"])
  ∧ new_node_data initial "pump" origin
    = Some {[ "label" := VStr ""; "type" := VStr "pump" ]}
  ∧ new_node_data initial "node" origin
    = Some {[ "label" := VStr "Node 1"; "type" := VStr "node";
              "nodeNumber" := VNum 1; "elevation" := VNum 50 ]}.
Proof.
  assert (Hc : 1 ≤ idCounter initial ≤ MAX_SAFE_INTEGER)
    by (vm_compute; split; discriminate).
  split; [exact Hc|].
  assert (H : "pump" ∉ ["reservoir"; "node"; "junction"; "surgeTank";
                         "flowBoundary"]).
  { rewrite !not_elem_of_cons. repeat split; try discriminate.
    apply not_elem_of_nil. }
  split; [exact H|].
  destruct (addNode_default_attributes initial origin Hc)
    as (_ & Hnode & _ & _ & _ & Ho).
  split; [exact (Ho "pump" H) | exact Hnode].
Defined.

(** ** Ids and the counter *)

Lemma filter_sublist {A : Type} (p : A → bool) (l : list A) :
  sublist (List.filter p l) l.
Proof.
  apply (retained_sublist (λ x, p x = true)). by apply retained_filter.
Qed.

Lemma ids_fresh_sublist (w w' : World) :
  sublist (ids w') (ids w) → idCounter w ≤ idCounter w' →
  ids_fresh w → ids_fresh w'.
Proof.
  intros Hs Hc [Hn Hf]. split.
  - by apply (sublist_NoDup _ _ Hn).
  - intros id Hid. specialize (Hf id (elem_of_sublist _ _ _ Hid Hs)). lia.
Qed.

Lemma ids_fresh_mint (w w' : World) :
  ids w' ≡ₚ toString (idCounter w) :: ids w →
  idCounter w' = idCounter w + 1 →
  ids_fresh w → ids_fresh w'.
Proof.
  intros Hp Hc [Hn Hf]. split.
  - rewrite Hp. apply NoDup_cons. split; [|done].
    intros Hin. specialize (Hf _ Hin). rewrite id_value_toString in Hf. lia.
  - intros id. rewrite Hp, elem_of_cons. intros [->|Hin].
    + rewrite id_value_toString. lia.
    + specialize (Hf _ Hin). lia.
Qed.

Lemma updateNodeData_ids (w : World) (id : string) (data : gmap string JSVal) :
  ids (exec (updateNodeData id data) w) = ids w.
Proof.
  unfold ids. f_equal. run. rewrite <- list_fmap_compose.
  apply list_fmap_ext. intros _ n _. simpl. by case_bool_decide.
Qed.

Lemma Store_updateEdgeData_ids (w : World) (id : string)
    (data : gmap string JSVal) :
  ids (exec (Store.updateEdgeData id data) w) = ids w.
Proof.
  unfold ids. f_equal. rewrite Store_updateEdgeData_list.
  rewrite <- list_fmap_compose. apply list_fmap_ext.
  intros _ e _. apply Store_updateEdge_id.
Qed.

Lemma deleteElement_ids (w : World) (id : string) (type : ElementType) :
  sublist (ids (exec (Part000.deleteElement id type) w)) (ids w).
Proof.
  unfold ids. destruct type.
  - destruct (deleteElement_node_lists w id) as [-> ->].
    apply sublist_app; apply fmap_sublist, filter_sublist.
  - apply sublist_app; [done|]. apply fmap_sublist. run. apply filter_sublist.
Qed.

Lemma addNode_ids (w : World) (type : string) (position : XYPosition) :
  ids (exec (addNode type position) w) ≡ₚ toString (idCounter w) :: ids w.
Proof.
  unfold ids. run. rewrite fmap_app. simpl.
  by rewrite <- Permutation_cons_append.
Qed.

Lemma loadNetwork_ids_fresh (w : World) (ns : Arr Node) (es : Arr Edge) :
  NoDup ((node_id <$> arr_items ns) ++ (edge_id <$> arr_items es)) →
  ids_fresh (exec (loadNetwork ns es) w).
Proof.
  intros Hn. split; [exact Hn|].
  intros id Hid. rewrite loadNetwork_idCounter.
  destruct (Math_max_bounds (loaded_ids ns es) 0) as (_ & Hb & _).
  enough (id_value id ∈ loaded_ids ns es) as H by (specialize (Hb _ H); lia).
  unfold loaded_ids. rewrite !list_fmap_compose, <- fmap_app.
  by apply list_elem_of_fmap_2.
Qed.

Ltac use_adds Hadd :=
  match goal with
  | |- context [addEdge ?e ?es ?h] =>
      let Hes := fresh "Hes" in
      pose proof (Hadd e es h) as Hes;
      destruct (addEdge e es h) as [? ?]; simpl in Hes |- *
  end.

Section Ids.
Context {host : Xyflow} (Hadd : addEdge_adds_at_most host).

Lemma Store_onConnect_ids (w : World) (c : Connection) :
  (ids (exec (Store.onConnect c) w) ≡ₚ toString (idCounter w) :: ids w
   ∨ ids (exec (Store.onConnect c) w) = ids w)
  ∧ idCounter (exec (Store.onConnect c) w) = idCounter w + 1.
Proof.
  unfold ids. run. use_adds Hadd. split; [|done].
  destruct Hes as [Hes|Hes]; rewrite Hes; [left|by right].
  rewrite fmap_app. simpl.
  by rewrite (assoc_L (++)), <- Permutation_cons_append.
Qed.

Lemma Part000_onConnect_ids (w : World) (c : Connection) :
  (ids (exec (Part000.onConnect c) w) ≡ₚ toString (idCounter w) :: ids w
   ∨ ids (exec (Part000.onConnect c) w) = ids w)
  ∧ idCounter (exec (Part000.onConnect c) w) = idCounter w + 1.
Proof.
  unfold ids. run. use_adds Hadd. split; [|done].
  destruct Hes as [Hes|Hes]; rewrite Hes; [left|by right].
  rewrite fmap_app. simpl.
  by rewrite (assoc_L (++)), <- Permutation_cons_append.
Qed.

Lemma Store_dispatch_ids_fresh (a : Store.Action) (w : World) :
  Store_mints host w a → ids_fresh w →
  ids_fresh (exec (Store.dispatch a) w).
Proof.
  intros Ha Hw. destruct a; simpl in *; try done.
  - destruct (Store_onConnect_ids w connection) as [[Hp|Hp] Hc].
    + by apply (ids_fresh_mint w).
    + apply (ids_fresh_sublist w); [by rewrite Hp|lia|done].
  - apply (ids_fresh_mint w); [apply addNode_ids|done|done].
  - apply (ids_fresh_sublist w); [by rewrite updateNodeData_ids|done|done].
  - apply (ids_fresh_sublist w);
      [by rewrite Store_updateEdgeData_ids|done|done].
  - apply loadNetwork_ids_fresh. by destruct Ha.
  - split; [constructor|]. by intros id H%elem_of_nil.
Qed.

Lemma Part000_dispatch_ids_fresh (a : Part000.Action) (w : World) :
  Part000_mints host w a → ids_fresh w →
  ids_fresh (exec (Part000.dispatch a) w).
Proof.
  intros Ha Hw. destruct a; simpl in *; try done.
  - destruct (Part000_onConnect_ids w connection) as [[Hp|Hp] Hc].
    + by apply (ids_fresh_mint w).
    + apply (ids_fresh_sublist w); [by rewrite Hp|lia|done].
  - apply (ids_fresh_mint w); [apply addNode_ids|done|done].
  - apply (ids_fresh_sublist w); [by rewrite updateNodeData_ids|done|done].
  - apply (ids_fresh_sublist w); [apply deleteElement_ids| |done].
    by destruct type.
  - apply loadNetwork_ids_fresh. by destruct Ha.
  - split; [constructor|]. by intros id H%elem_of_nil.
Qed.

End Ids.

Lemma addEdge_spec_appends : addEdge_appends spec_host.
Proof. intros e es h. reflexivity. Qed.

Lemma library_addEdge_adds_at_most : addEdge_adds_at_most library_host.
Proof.
  intros e es h. simpl. unfold library_addEdge.
  destruct (_ || _); [by right|].
  destruct (connectionExists _ _ _ _ _); [by right|by left].
Qed.

(** X3.  When the library's [addEdge] appends the edge or keeps the
    elements, and ids come from the store's own counter while it is a safe
    integer (loaded ids included), no id is in use twice, in either
    collection or across them; every id reads as a number below the
    counter; and the id the counter would give next is not in use. *)
Theorem ids_never_reused (host : Xyflow) (w : World) :
  addEdge_adds_at_most host →
  reachable_when (Store_mints host) Store.dispatch w
  ∨ reachable_when (Part000_mints host) Part000.dispatch w →
  NoDup (ids w)
  ∧ (∀ id, id ∈ ids w → id_value id < idCounter w)
  ∧ toString (idCounter w) ∉ ids w.
Proof.
  intros Hadd H.
  assert (Hf : ids_fresh w).
  { destruct H as [H|H].
    - induction H as [|a w _ IH Ha].
      + split; [constructor|]. by intros id H%elem_of_nil.
      + by apply Store_dispatch_ids_fresh.
    - induction H as [|a w _ IH Ha].
      + split; [constructor|]. by intros id H%elem_of_nil.
      + by apply Part000_dispatch_ids_fresh. }
  destruct Hf as [Hn Hf]. split; [done|]. split; [done|].
  intros Hin. specialize (Hf _ Hin). rewrite id_value_toString in Hf. lia.
Qed.

Lemma ids_never_reused_witness :
  addEdge_adds_at_most library_host
  ∧ reachable_when (Part000_mints library_host)
      (Part000.dispatch (host := library_host)) two_nodes_connected_twice
  ∧ ids two_nodes_connected_twice = ["1"; "2"; "3"]
  ∧ idCounter two_nodes_connected_twice = 5
  ∧ NoDup (ids two_nodes_connected_twice)
  ∧ (toString (idCounter two_nodes_connected_twice)
     ∉ ids two_nodes_connected_twice).
Proof.
  split; [exact library_addEdge_adds_at_most|].
  assert (H : reachable_when (Part000_mints library_host)
                (Part000.dispatch (host := library_host))
                two_nodes_connected_twice).
  { unfold two_nodes_connected_twice.
    repeat (apply reachable_when_step;
            [|vm_compute; discriminate]).
    apply reachable_when_initial. }
  split; [exact H|]. split; [reflexivity|]. split; [reflexivity|].
  destruct (ids_never_reused library_host two_nodes_connected_twice
              library_addEdge_adds_at_most (or_intror H)) as (Hn & _ & Hf).
  split; [exact Hn|exact Hf].
Defined.

Section Counter.
Context {host : Xyflow}.

Lemma Store_dispatch_counter (a : Store.Action) (w : World) :
  idCounter (exec (Store.dispatch a) w)
  = match a with
    | Store.OnConnect _ | Store.AddNode _ _ => idCounter w + 1
    | Store.LoadNetwork ns es => Math_max (loaded_ids ns es) 0 + 1
    | Store.ClearNetwork => 1
    | _ => idCounter w
    end.
Proof.
  destruct a; cbn [Store.dispatch]; try reflexivity.
  - run. by destruct (applyNodeChanges _ _ _).
  - run. by destruct (applyEdgeChanges _ _ _).
  - run. by destruct (addEdge _ _ _).
  - apply loadNetwork_idCounter.
Qed.

Lemma Part000_dispatch_counter (a : Part000.Action) (w : World) :
  idCounter (exec (Part000.dispatch a) w)
  = match a with
    | Part000.OnConnect _ | Part000.AddNode _ _ => idCounter w + 1
    | Part000.LoadNetwork ns es => Math_max (loaded_ids ns es) 0 + 1
    | Part000.ClearNetwork => 1
    | _ => idCounter w
    end.
Proof.
  destruct a; cbn [Part000.dispatch]; try reflexivity.
  - run. by destruct (applyNodeChanges _ _ _).
  - run. by destruct (applyEdgeChanges _ _ _).
  - run. by destruct (addEdge _ _ _).
  - by destruct type.
  - apply loadNetwork_idCounter.
Qed.

End Counter.

(** X4.  While the counter is a safe integer, [addNode] and [onConnect]
    advance it by one, whatever the library returns; [loadNetwork] sets it
    to one more than the greatest of 0 and the loaded ids when none of
    them reads as more than [MAX_SAFE_INTEGER]; [clearNetwork] sets it to
    1; no other action, [deleteElement] included, changes it. *)
Theorem counter_advances (host : Xyflow) (w : World) :
  (∀ a, Store_counter_exact host w a →
        idCounter (exec (Store.dispatch a) w)
        = match a with
          | Store.OnConnect _ | Store.AddNode _ _ => idCounter w + 1
          | Store.LoadNetwork ns es => Math_max (loaded_ids ns es) 0 + 1
          | Store.ClearNetwork => 1
          | _ => idCounter w
          end)
  ∧ (∀ a, Part000_counter_exact host w a →
          idCounter (exec (Part000.dispatch a) w)
          = match a with
            | Part000.OnConnect _ | Part000.AddNode _ _ => idCounter w + 1
            | Part000.LoadNetwork ns es => Math_max (loaded_ids ns es) 0 + 1
            | Part000.ClearNetwork => 1
            | _ => idCounter w
            end).
Proof.
  split; intros a _;
    [apply Store_dispatch_counter|apply Part000_dispatch_counter].
Qed.

Lemma counter_advances_witness :
  Part000_counter_exact library_host two_nodes_connected_twice
    (Part000.OnConnect loop_1_1)
  ∧ Part000_counter_exact library_host two_nodes_connected_twice
      (Part000.DeleteElement "1" kind_node)
  ∧ idCounter two_nodes_connected_twice = 5
  ∧ idCounter (exec (Part000.dispatch (host := library_host)
                       (Part000.OnConnect loop_1_1))
                    two_nodes_connected_twice) = 6
  ∧ idCounter (exec (Part000.dispatch (host := library_host)
                       (Part000.DeleteElement "1" kind_node))
                    two_nodes_connected_twice) = 5.
Proof.
  assert (H1 : Part000_counter_exact library_host two_nodes_connected_twice
                 (Part000.OnConnect loop_1_1))
    by (vm_compute; discriminate).
  assert (H2 : Part000_counter_exact library_host two_nodes_connected_twice
                 (Part000.DeleteElement "1" kind_node)) by exact I.
  split; [exact H1|]. split; [exact H2|]. split; [reflexivity|].
  destruct (counter_advances library_host two_nodes_connected_twice)
    as [_ Hp].
  split; [exact (Hp _ H1) | exact (Hp _ H2)].
Defined.

(** X5.  The counter is at least 1 in every state either revision
    reaches. *)
Theorem counter_at_least_one (host : Xyflow) (w : World) :
  reachable any Store.dispatch w ∨ reachable any Part000.dispatch w →
  1 ≤ idCounter w.
Proof.
  intros [H|H].
  - induction H as [|a w _ IH _]; [done|].
    rewrite Store_dispatch_counter. destruct a; try lia.
    destruct (Math_max_bounds (loaded_ids ns es) 0) as [? _]. lia.
  - induction H as [|a w _ IH _]; [done|].
    rewrite Part000_dispatch_counter. destruct a; try lia.
    destruct (Math_max_bounds (loaded_ids ns es) 0) as [? _]. lia.
Qed.

Lemma counter_at_least_one_witness :
  reachable any (Part000.dispatch (host := spec_host)) two_nodes_connected
  ∧ 1 ≤ idCounter two_nodes_connected.
Proof.
  assert (H : reachable any (Part000.dispatch (host := spec_host))
                two_nodes_connected).
  { unfold two_nodes_connected.
    repeat (apply reachable_step; [|exact I]). apply reachable_initial. }
  split; [exact H|].
  exact (counter_at_least_one spec_host two_nodes_connected (or_intror H)).
Defined.

(** X6.  When no loaded id reads as more than [MAX_SAFE_INTEGER], the id
    of a node added right after [loadNetwork] is the id of none of the
    loaded nodes and edges. *)
Theorem loadNetwork_then_addNode_no_collision
    (w : World) (ns : Arr Node) (es : Arr Edge)
    (type : string) (position : XYPosition) :
  (∀ z, z ∈ loaded_ids ns es → z ≤ MAX_SAFE_INTEGER) →
  let w' := exec (addNode type position) (exec (loadNetwork ns es) w) in
  ∃ new, node_list w' = (arr_items ns ++ [new])%list
         ∧ (node_id new ∉ node_id <$> arr_items ns)
         ∧ (node_id new ∉ edge_id <$> arr_items es).
Proof.
  intros _ w'. subst w'.
  destruct (addNode_appends (exec (loadNetwork ns es) w) type position)
    as (new & Hl & Hid).
  exists new. split; [exact Hl|].
  assert (Hf : ∀ id, id ∈ ((node_id <$> arr_items ns)
                            ++ (edge_id <$> arr_items es))%list →
                     id ≠ node_id new).
  { intros id Hin ->.
    pose proof (loadNetwork_idCounter w ns es) as Hc.
    destruct (Math_max_bounds (loaded_ids ns es) 0) as (_ & Hb & _).
    assert (Hv : id_value (node_id new) ∈ loaded_ids ns es).
    { unfold loaded_ids. rewrite !list_fmap_compose, <- fmap_app.
      by apply list_elem_of_fmap_2. }
    specialize (Hb _ Hv). rewrite Hid, id_value_toString in Hb. lia. }
  split; intros Hin; apply (Hf (node_id new)); try done;
    apply elem_of_app; auto.
Qed.

(** Ids that do not read as small numbers: "0x1F" is 31, "12abc" is 12. *)
Lemma loadNetwork_then_addNode_no_collision_witness :
  let ns := mkArr 10%nat [sample_node "0x1F"; sample_node "12abc"] in
  let es := mkArr 11%nat [sample_edge "pipe" "0x1F" "12abc"] in
  loaded_ids ns es = [31; 12; 0]
  ∧ (∀ z, z ∈ loaded_ids ns es → z ≤ MAX_SAFE_INTEGER)
  ∧ ∃ new,
      node_list (exec (addNode "junction" origin)
                      (exec (loadNetwork ns es) initial))
      = (arr_items ns ++ [new])%list
      ∧ (node_id new ∉ node_id <$> arr_items ns)
      ∧ (node_id new ∉ edge_id <$> arr_items es).
Proof.
  intros ns es. split; [reflexivity|].
  assert (Hb : ∀ z, z ∈ loaded_ids ns es → z ≤ MAX_SAFE_INTEGER).
  { intros z Hz. change (loaded_ids ns es) with [31; 12; 0] in Hz.
    rewrite !elem_of_cons in Hz.
    destruct Hz as [->|[->|[->|Hz]]]; [done..|by apply elem_of_nil in Hz]. }
  split; [exact Hb|].
  exact (loadNetwork_then_addNode_no_collision initial ns es
           "junction" origin Hb).
Defined.

(** ** Merging patches *)

Lemma spread_merged (old patch : gmap string JSVal) :
  merged old patch (spread old patch).
Proof.
  intros k. unfold spread. rewrite lookup_union.
  destruct (patch !! k), (old !! k); done.
Qed.

(** X7.  [updateNodeData] keeps the number and order of the nodes, and the
    id, type and position of each; a node with the given id gets the patch
    merged into its data (the patch wins, the other properties stay), every
    other node stays as it is; edges, selection and counter are untouched. *)
Theorem updateNodeData_merges (w : World) (id : string)
    (data : gmap string JSVal) :
  let w' := exec (updateNodeData id data) w in
  length (node_list w') = length (node_list w)
  ∧ (∀ i n, node_list w !! i = Some n →
       ∃ n', node_list w' !! i = Some n'
             ∧ node_id n' = node_id n
             ∧ node_type n' = node_type n
             ∧ node_position n' = node_position n
             ∧ (node_id n = id → merged (node_data n) data (node_data n'))
             ∧ (node_id n ≠ id → n' = n))
  ∧ edges (store w') = edges (store w)
  ∧ selection w' = selection w
  ∧ idCounter w' = idCounter w.
Proof.
  intros w'. subst w'. split; [|split; [|done]].
  - run. by rewrite length_fmap.
  - intros i n Hn. run. rewrite list_lookup_fmap.
    unfold node_list in Hn. rewrite Hn. simpl. eexists. split; [done|].
    case_bool_decide; simpl; repeat split; try done.
    intros _. apply spread_merged.
Qed.

Lemma updateNodeData_merges_witness :
  let data : gmap string JSVal := {[ "elevation" := VNum 75 ]} in
  let w' := exec (updateNodeData "2" data) sample_world in
  node_list sample_world !! 1%nat = Some (sample_node "2")
  ∧ ∃ n', node_list w' !! 1%nat = Some n'
          ∧ node_data n' !! "elevation" = Some (VNum 75)
          ∧ node_data n' !! "label" = Some (VStr "J").
Proof.
  intros data w'.
  assert (H : node_list sample_world !! 1%nat = Some (sample_node "2"))
    by reflexivity.
  split; [exact H|].
  destruct (updateNodeData_merges sample_world "2" data) as (_ & Hm & _).
  destruct (Hm 1%nat (sample_node "2") H) as (n' & Hn' & _ & _ & _ & Hd & _).
  exists n'. split; [exact Hn'|].
  specialize (Hd eq_refl). split; [exact (Hd "elevation")|exact (Hd "label")].
Defined.

(** X8.  The [updateEdgeData] of [store.ts] keeps the number and order of
    the edges and the id, source, target, handles and [type] of each; an
    edge with the given id gets the patch merged into its data (into an
    empty object when it had none), and keeps its style and marker unless
    the patch has the type 'conduit' or 'dummy'; every other edge stays as
    it is. *)
Theorem Store_updateEdgeData_merges (w : World) (id : string)
    (data : gmap string JSVal) :
  let w' := exec (Store.updateEdgeData id data) w in
  length (edge_list w') = length (edge_list w)
  ∧ (∀ i e, edge_list w !! i = Some e →
       ∃ e', edge_list w' !! i = Some e'
             ∧ edge_id e' = edge_id e
             ∧ edge_source e' = edge_source e
             ∧ edge_target e' = edge_target e
             ∧ edge_sourceHandle e' = edge_sourceHandle e
             ∧ edge_targetHandle e' = edge_targetHandle e
             ∧ edge_type e' = edge_type e
             ∧ (edge_id e = id →
                ∃ d, edge_data e' = Some d
                     ∧ merged (default ∅ (edge_data e)) data d
                     ∧ (is_string (data !! "type") "conduit" = false →
                        is_string (data !! "type") "dummy" = false →
                        edge_style e' = edge_style e
                        ∧ edge_markerEnd e' = edge_markerEnd e))
             ∧ (edge_id e ≠ id → e' = e))
  ∧ nodes (store w') = nodes (store w)
  ∧ selection w' = selection w
  ∧ idCounter w' = idCounter w.
Proof.
  intros w'. subst w'. rewrite Store_updateEdgeData_list.
  split; [by rewrite length_fmap|]. split; [|done].
  intros i e He. rewrite list_lookup_fmap, He. simpl.
  eexists. split; [done|].
  unfold Store.updateEdge. case_bool_decide.
  - destruct (is_string (data !! "type") "conduit") eqn:Ec;
      [|destruct (is_string (data !! "type") "dummy") eqn:Ed]; simpl;
      (do 6 (split; [done|])); (split; [|done]); intros _;
      (eexists; split; [done|]); (split; [apply spread_merged|]); done.
  - do 6 (split; [done|]). split; done.
Qed.

Lemma Store_updateEdgeData_merges_witness :
  let data : gmap string JSVal := {[ "length" := VNum 250 ]} in
  let w' := exec (Store.updateEdgeData "e1" data) sample_world in
  edge_list sample_world !! 0%nat = Some (sample_edge "e1" "1" "2")
  ∧ ∃ e' d, edge_list w' !! 0%nat = Some e'
            ∧ edge_data e' = Some d
            ∧ d !! "length" = Some (VNum 250)
            ∧ d !! "label" = Some (VStr "C")
            ∧ edge_style e' = None.
Proof.
  intros data w'.
  assert (H : edge_list sample_world !! 0%nat
              = Some (sample_edge "e1" "1" "2")) by reflexivity.
  split; [exact H|].
  destruct (Store_updateEdgeData_merges sample_world "e1" data)
    as (_ & Hm & _).
  destruct (Hm 0%nat _ H) as (e' & He' & _ & _ & _ & _ & _ & _ & Hd & _).
  destruct (Hd eq_refl) as (d & Hed & Hmd & Hst).
  exists e', d. split; [exact He'|]. split; [exact Hed|].
  split; [exact (Hmd "length")|]. split; [exact (Hmd "label")|].
  exact (proj1 (Hst eq_refl eq_refl)).
Defined.

(** ** Deleting edges, unknown ids, end points *)

Lemma filter_all {A : Type} (p : A → bool) (l : list A) :
  (∀ x, x ∈ l → p x = true) → List.filter p l = l.
Proof.
  induction l as [|x l IH]; intros H; simpl; [done|].
  rewrite (H x) by (apply elem_of_cons; by left).
  f_equal. apply IH. intros y Hy. apply H, elem_of_cons. by right.
Qed.

Lemma deleteElement_edge_list (w : World) (id : string) :
  edge_list (exec (Part000.deleteElement id kind_edge) w)
  = List.filter (λ e, negb (bool_decide (edge_id e = id))) (edge_list w).
Proof. by run. Qed.

(** X9.  [deleteElement(id, 'edge')] takes out the edges with that id and
    leaves the others with their values and order; the node collection is
    the same array and the counter is unchanged. *)
Theorem deleteElement_edge_removes (w : World) (id : string) :
  let w' := exec (Part000.deleteElement id kind_edge) w in
  retained (λ e, edge_id e ≠ id) (edge_list w) (edge_list w')
  ∧ (∀ e, e ∈ edge_list w' → edge_id e ≠ id)
  ∧ nodes (store w') = nodes (store w)
  ∧ idCounter w' = idCounter w.
Proof.
  intros w'. subst w'. rewrite deleteElement_edge_list.
  assert (Hr : retained (λ e, edge_id e ≠ id) (edge_list w)
            (List.filter (λ e, negb (bool_decide (edge_id e = id)))
                         (edge_list w))).
  { apply retained_filter. intros e.
    by rewrite negb_true_iff, bool_decide_eq_false. }
  split; [exact Hr|]. split; [|done].
  intros e He. by apply (retained_elem_of _ _ _ Hr) in He as [_ ?].
Qed.

Lemma deleteElement_edge_removes_witness :
  let w' := exec (Part000.deleteElement "e2" kind_edge) sample_world in
  sample_edge "e3" "2" "3" ∈ edge_list w'
  ∧ edge_id (sample_edge "e3" "2" "3") ≠ "e2"
  ∧ edge_id <$> edge_list w' = ["e1"; "e3"].
Proof.
  intros w'.
  assert (H : sample_edge "e3" "2" "3" ∈ edge_list w').
  { apply elem_of_cons; right. apply elem_of_cons; left. reflexivity. }
  split; [exact H|].
  destruct (deleteElement_edge_removes sample_world "e2") as (_ & Hn & _).
  split; [exact (Hn _ H)|reflexivity].
Defined.

(** X10.  [deleteElement] with an id that no edge has (kind edge), or that
    no node has and no edge starts or ends at (kind node), leaves the
    elements of the collections as they are. *)
Theorem deleteElement_unknown_id (w : World) (id : string) :
  (id ∉ edge_id <$> edge_list w →
   edge_list (exec (Part000.deleteElement id kind_edge) w) = edge_list w
   ∧ nodes (store (exec (Part000.deleteElement id kind_edge) w))
     = nodes (store w))
  ∧ (id ∉ node_id <$> node_list w →
     id ∉ edge_source <$> edge_list w →
     id ∉ edge_target <$> edge_list w →
     node_list (exec (Part000.deleteElement id kind_node) w) = node_list w
     ∧ edge_list (exec (Part000.deleteElement id kind_node) w) = edge_list w).
Proof.
  split.
  - intros H. split; [|done]. rewrite deleteElement_edge_list.
    apply filter_all. intros e He.
    rewrite negb_true_iff, bool_decide_eq_false. intros <-.
    by apply H, list_elem_of_fmap_2.
  - intros Hn Hs Ht.
    destruct (deleteElement_node_lists w id) as [-> ->]. split.
    + apply filter_all. intros n Hin.
      rewrite negb_true_iff, bool_decide_eq_false. intros <-.
      by apply Hn, list_elem_of_fmap_2.
    + apply filter_all. intros e He.
      rewrite andb_true_iff, !negb_true_iff, !bool_decide_eq_false.
      split; intros <-; [apply Hs|apply Ht]; by apply list_elem_of_fmap_2.
Qed.

Lemma deleteElement_unknown_id_witness :
  ("9" ∉ edge_id <$> edge_list sample_world)
  ∧ ("9" ∉ node_id <$> node_list sample_world)
  ∧ ("9" ∉ edge_source <$> edge_list sample_world)
  ∧ ("9" ∉ edge_target <$> edge_list sample_world)
  ∧ edge_list (exec (Part000.deleteElement "9" kind_edge) sample_world)
    = edge_list sample_world
  ∧ node_list (exec (Part000.deleteElement "9" kind_node) sample_world)
    = node_list sample_world.
Proof.
  assert (He : "9" ∉ edge_id <$> edge_list sample_world).
  { change (edge_id <$> edge_list sample_world) with ["e1"; "e2"; "e3"].
    rewrite !not_elem_of_cons. repeat split; try discriminate.
    apply not_elem_of_nil. }
  assert (Hn : "9" ∉ node_id <$> node_list sample_world).
  { change (node_id <$> node_list sample_world) with ["1"; "2"; "3"].
    rewrite !not_elem_of_cons. repeat split; try discriminate.
    apply not_elem_of_nil. }
  assert (Hs : "9" ∉ edge_source <$> edge_list sample_world).
  { change (edge_source <$> edge_list sample_world) with ["1"; "3"; "2"].
    rewrite !not_elem_of_cons. repeat split; try discriminate.
    apply not_elem_of_nil. }
  assert (Ht : "9" ∉ edge_target <$> edge_list sample_world).
  { change (edge_target <$> edge_list sample_world) with ["2"; "1"; "3"].
    rewrite !not_elem_of_cons. repeat split; try discriminate.
    apply not_elem_of_nil. }
  do 4 (split; [assumption|]).
  destruct (deleteElement_unknown_id sample_world "9") as [H1 H2].
  split; [exact (proj1 (H1 He))|exact (proj1 (H2 Hn Hs Ht))].
Defined.

Lemma deleteElement_keeps_endpoints (w : World) (id : string)
    (type : ElementType) :
  endpoints_present w →
  endpoints_present (exec (Part000.deleteElement id type) w).
Proof.
  intros Hw e. destruct type.
  - destruct (deleteElement_node_lists w id) as [-> ->].
    rewrite list_elem_of_In, filter_In, <- list_elem_of_In, andb_true_iff,
      !negb_true_iff, !bool_decide_eq_false.
    intros (He & Hs & Ht). destruct (Hw e He) as [Hes Het].
    apply list_elem_of_fmap in Hes as (n1 & E1 & Hn1).
    apply list_elem_of_fmap in Het as (n2 & E2 & Hn2).
    split; [rewrite E1|rewrite E2]; apply list_elem_of_fmap_2;
      rewrite list_elem_of_In, filter_In, <- list_elem_of_In,
        negb_true_iff, bool_decide_eq_false; split; congruence.
  - rewrite deleteElement_edge_list.
    rewrite list_elem_of_In, filter_In, <- list_elem_of_In.
    intros [He _]. exact (Hw e He).
Qed.

(** X11.  When every edge starts and ends at a node of the collection, it
    still does after any action that cannot bring in an edge without its
    nodes; in particular after [deleteElement], which takes the edges of a
    deleted node with it. *)
Theorem Part000_endpoints_preserved
    (host : Xyflow) (w : World) (a : Part000.Action) :
  addEdge_appends host →
  keeps_endpoints host w a →
  endpoints_present w →
  endpoints_present (exec (Part000.dispatch a) w).
Proof.
  intros Happ Ha Hw. destruct a; cbn [Part000.dispatch keeps_endpoints] in *;
    try done.
  - (* onConnect *)
    destruct Ha as [Hs Ht]. intros e. unfold endpoints_present in Hw.
    revert Hw Hs Ht. run. use_appends Happ. intros Hw Hs Ht.
    rewrite Hes, elem_of_app, list_elem_of_singleton.
    intros [He| ->]; [by apply Hw | by split].
  - (* addNode *)
    intros e He.
    destruct (addNode_appends w type position) as (new & -> & _).
    rewrite fmap_app.
    destruct (Hw e He) as [? ?]. split; apply elem_of_app; by left.
  - (* updateNodeData *)
    intros e He. pose proof (updateNodeData_ids w id data) as Hi.
    unfold ids in Hi. apply app_inv_tail in Hi. rewrite Hi. by apply Hw.
  - by apply deleteElement_keeps_endpoints.
  - intros e He. by apply elem_of_nil in He.
Qed.

Lemma sample_world_endpoints : endpoints_present sample_world.
Proof.
  intros e He.
  change (node_id <$> node_list sample_world) with ["1"; "2"; "3"].
  change (edge_list sample_world)
    with [sample_edge "e1" "1" "2"; sample_edge "e2" "3" "1";
          sample_edge "e3" "2" "3"] in He.
  rewrite !elem_of_cons in He.
  destruct He as [->|[->|[->|He]]]; [..|by apply elem_of_nil in He];
    simpl; rewrite !elem_of_cons; auto.
Defined.

Lemma Part000_endpoints_preserved_witness :
  addEdge_appends spec_host
  ∧ endpoints_present sample_world
  ∧ endpoints_present
      (exec (Part000.dispatch (host := spec_host)
               (Part000.DeleteElement "2" kind_node)) sample_world).
Proof.
  split; [exact addEdge_spec_appends|].
  split; [exact sample_world_endpoints|].
  exact (Part000_endpoints_preserved spec_host sample_world
           (Part000.DeleteElement "2" kind_node)
           addEdge_spec_appends I sample_world_endpoints).
Defined.

(** ** The style of the rendered edge *)

(** X12.  The style handed to [BaseEdge] is the given style with
    [strokeWidth] set to 2: every other property passes through.  The
    marker is named after the edge id, and the [markerEnd] prop has no
    effect on the output. *)
Theorem ConnectionEdge_base_style (host : Xyflow) (props : EdgeProps) :
  let out := ConnectionEdge props in
  let style := default ∅ (props_style props) in
  base_style (base_edge out) !! "strokeWidth" = Some (VNum 2)
  ∧ (∀ k, k ≠ "strokeWidth" → base_style (base_edge out) !! k = style !! k)
  ∧ marker_id (defs_marker out) = "arrow-" +:+ props_id props
  ∧ (∀ m, ConnectionEdge
            {| props_id := props_id props;
               sourceX := sourceX props; sourceY := sourceY props;
               targetX := targetX props; targetY := targetY props;
               sourcePosition := sourcePosition props;
               targetPosition := targetPosition props;
               props_style := props_style props;
               props_markerEnd := m |} = out).
Proof.
  intros out style. subst out style. unfold ConnectionEdge, spread. simpl.
  split; [|split; [|done]].
  - by rewrite lookup_union, lookup_singleton_eq, union_Some_l.
  - intros k Hk. rewrite lookup_union, lookup_singleton_ne by congruence.
    by destruct (_ !! k).
Qed.

Lemma ConnectionEdge_base_style_witness :
  let props :=
    {| props_id := "7"; sourceX := 0; sourceY := 0; targetX := 10;
       targetY := 5; sourcePosition := Right; targetPosition := Left;
       props_style := Some {[ "stroke" := VStr "#94a3b8";
                              "strokeWidth" := VNum 9 ]};
       props_markerEnd := None |} in
  "stroke" ≠ "strokeWidth"
  ∧ base_style (base_edge (ConnectionEdge (host := spec_host) props))
      !! "stroke" = Some (VStr "#94a3b8")
  ∧ base_style (base_edge (ConnectionEdge (host := spec_host) props))
      !! "strokeWidth" = Some (VNum 2).
Proof.
  intros props.
  assert (H : "stroke" ≠ "strokeWidth") by discriminate.
  split; [exact H|].
  destruct (ConnectionEdge_base_style spec_host props) as (Hw & Hk & _).
  split; [exact (Hk "stroke" H)|exact Hw].
Defined.
